(** * PyVisualizer: a shallow embedding of [visualizer.py]

    The module under verification draws three audio visualizations
    ([LineVisualizer], [Spectrogram], [CustomVisualizer]) from blocks of PCM
    samples.  This development embeds the arithmetic and the control flow of
    the file: the numbers as Python (2) has them, the exceptions its
    functions raise, the mutable fields of the visualizer objects as explicit
    state, and the painter calls of a frame as the list of drawing commands
    they issue.

    Conventions of the embedding.
    - A Python [float] (and a NumPy float scalar) is an exact rational [Q]:
      rounding is not modelled.
    - A Python [int] (and a NumPy integer scalar) is an unbounded [Z]; the
      dtype of the sample array is chosen by the caller of the module, the
      samples themselves lie in the signed 16-bit range.
    - The file is Python 2 ([xrange], [time.clock]): [/] between two integers
      is floor division.
    - [np.absolute(np.fft.rfft(data, n=len(data)))] is computed by NumPy; it
      enters the embedding as the function [rfft_abs].
    - Qt is the display host: widget size, painter and image are outside the
      file; a frame is the list of painter commands issued on it. *)

From Stdlib Require Import String Ascii ZArith QArith Qround Qabs List Bool Lia Lqa.
From Stdlib Require Import Qpower.
Import ListNotations.

Local Open Scope Z_scope.

(** ** Module constants *)

Definition SAMPLE_MAX : Z := 32767.
Definition SAMPLE_MIN : Z := - (SAMPLE_MAX + 1).
Definition SAMPLE_RATE : Z := 44100.
Definition NYQUIST : Z := SAMPLE_RATE / 2.
Definition SAMPLE_SIZE : Z := 16.
Definition CHANNEL_COUNT : Z := 1.
Definition BUFFER_SIZE : Z := 5000.

(** ** Exceptions and outcomes *)

Inductive exn : Type :=
| ValueError (msg : string)
| ZeroDivisionError (msg : string).

Inductive outcome (A : Type) : Type :=
| Ok (a : A)
| Raise (e : exn).

Arguments Ok {A} a.
Arguments Raise {A} e.

Definition obind {A B : Type} (c : outcome A) (k : A -> outcome B) : outcome B :=
  match c with
  | Ok a => k a
  | Raise e => Raise e
  end.

Definition is_ok {A : Type} (c : outcome A) : bool :=
  match c with Ok _ => true | Raise _ => false end.

(** Rational comparisons as booleans. *)

Definition Qltb (x y : Q) : bool := negb (Qle_bool y x).
Definition Qleb (x y : Q) : bool := Qle_bool x y.

(** ** Python numbers *)

Module Py.

Inductive num : Type :=
| PInt (z : Z)
| PFloat (q : Q).

Definition to_Q (a : num) : Q :=
  match a with
  | PInt z => inject_Z z
  | PFloat q => q
  end.

Definition is_float (a : num) : bool :=
  match a with PInt _ => false | PFloat _ => true end.

Definition add (a b : num) : num :=
  match a, b with
  | PInt x, PInt y => PInt (x + y)
  | _, _ => PFloat (to_Q a + to_Q b)
  end.

Definition sub (a b : num) : num :=
  match a, b with
  | PInt x, PInt y => PInt (x - y)
  | _, _ => PFloat (to_Q a - to_Q b)
  end.

Definition mul (a b : num) : num :=
  match a, b with
  | PInt x, PInt y => PInt (x * y)
  | _, _ => PFloat (to_Q a * to_Q b)
  end.

(** [a / b]: floor division between integers, true division as soon as one
    operand is a float; a zero divisor raises. *)
Definition div (a b : num) : outcome num :=
  if Qeq_bool (to_Q b) 0
  then Raise (ZeroDivisionError "division by zero")
  else Ok (match a, b with
           | PInt x, PInt y => PInt (x / y)
           | _, _ => PFloat (to_Q a / to_Q b)
           end).

Definition ltb (a b : num) : bool := Qltb (to_Q a) (to_Q b).
Definition gtb (a b : num) : bool := Qltb (to_Q b) (to_Q a).
Definition geb (a b : num) : bool := Qleb (to_Q b) (to_Q a).
Definition eqb (a b : num) : bool := Qeq_bool (to_Q a) (to_Q b).

(** [int(a)] truncates toward zero. *)
Definition int (a : num) : Z :=
  match a with
  | PInt z => z
  | PFloat q => Z.quot (Qnum q) (Zpos (Qden q))
  end.

(** [float(a)]. *)
Definition float (a : num) : num := PFloat (to_Q a).

Definition abs (a : num) : num :=
  match a with
  | PInt z => PInt (Z.abs z)
  | PFloat q => PFloat (Qabs q)
  end.

(** [str] of an integer: its decimal digits, with a sign when negative. *)
Fixpoint digits (fuel : nat) (n : Z) (acc : string) : string :=
  match fuel with
  | O => acc
  | S fuel' =>
      let d := String (ascii_of_nat (48 + Z.to_nat (n mod 10))) acc in
      if n <? 10 then d else digits fuel' (n / 10) d
  end.

Definition str_int (z : Z) : string :=
  let body := digits (S (Z.to_nat (Z.log2 (Z.abs z)))) (Z.abs z) EmptyString in
  if z <? 0 then String "-" body else body.

End Py.

Import Py.

Coercion PInt : Z >-> num.

(** ** Qt values used by the visualizers *)

Record QColor : Type := mkQColor { red : num; green : num; blue : num }.

(** [QtGui.QBrush(QtGui.QColor(r, g, b))]. *)
Definition QBrush := QColor.

Inductive halign : Type := AlignLeft | AlignRight | AlignHCenter.
Inductive valign : Type := AlignTop | AlignBottom | AlignVCenter.

Record QRect : Type := mkQRect { rx : Z; ry : Z; rw : Z; rh : Z }.

(** A vertex of the star polygon: the inner or the outer point of the pair
    that [__getStarPair__] builds for index [idx] out of [points].  The
    coordinates (cosine and sine of the angle) are left symbolic. *)
Inductive vertex : Type :=
| InnerPoint (points idx : Z) (rad : Z) (center : Z * Z)
| OuterPoint (points idx : Z) (rad : Z) (center : Z * Z).

(** Painter commands, each with the brush that is set when it is issued.
    [drawRectF] is [drawRect] on float arguments, where [None] is NaN. *)
Inductive paint : Type :=
| drawRect (x y w h : num) (b : QBrush)
| drawRectF (x y w h : option Q) (b : QBrush)
| drawQRect (r : QRect) (b : QBrush)
| drawText (r : QRect) (ha : halign) (va : valign) (text : string)
| drawPolygon (star : list vertex) (b : QBrush).

(** [QImage(width, height, Format_RGB32)] filled with black, then painted. *)
Record QImage : Type := mkQImage { img_width : Z; img_height : Z; painted : list paint }.

Definition white : QBrush := mkQColor 255 255 255.

Definition brushes : list QBrush :=
  [ mkQColor 255 255 255;   (* white *)
    mkQColor 255 0 0;       (* red *)
    mkQColor 0 240 0;       (* green *)
    mkQColor 0 0 255;       (* blue *)
    mkQColor 255 255 0;     (* yellow *)
    mkQColor 0 255 255 ].   (* teal *)

(** Key codes of [QtCore.Qt.Key]: the ASCII code for printable keys. *)
Definition Key_Escape : Z := 16777216.
Definition Key_0 : Z := 48.
Definition Key_1 : Z := 49.
Definition Key_9 : Z := 57.
Definition Key_Minus : Z := 45.
Definition Key_Equal : Z := 61.
Definition Key_I : Z := 73.
Definition Key_O : Z := 79.
Definition Key_P : Z := 80.
Definition Key_R : Z := 82.
Definition Key_S : Z := 83.

(** [dict(zip((ord(i) for i in 'QWERTYU'), self.brushes))]: [zip] stops at the
    shorter sequence, so the six brushes are bound to Q, W, E, R, T, Y. *)
Definition color_bindings : list (Z * QBrush) :=
  combine [81; 87; 69; 82; 84; 89; 85] brushes.

Fixpoint lookup_key (k : Z) (d : list (Z * QBrush)) : option QBrush :=
  match d with
  | [] => None
  | (k', b) :: d' => if k =? k' then Some b else lookup_key k d'
  end.

(** ** NumPy reductions *)

(** [np.amax] of a non-empty sequence; an empty one raises. *)
Definition amax_Z (data : list Z) : outcome Z :=
  match data with
  | [] => Raise (ValueError "zero-size array to reduction operation maximum which has no identity")
  | x :: xs => Ok (fold_left Z.max xs x)
  end.

Definition Qmax (x y : Q) : Q := if Qltb x y then y else x.

Definition amax_Q (fft : list Q) : outcome Q :=
  match fft with
  | [] => Raise (ValueError "zero-size array to reduction operation maximum which has no identity")
  | x :: xs => Ok (fold_left Qmax xs x)
  end.

(** [np.fft.fftfreq(n, d)]: entry [i] is [i / (n*d)] for the first
    [(n-1)/2 + 1] indices and [(i - n) / (n*d)] for the rest. *)
Definition fftfreq_at (n : Z) (d : Q) (i : Z) : Q :=
  (inject_Z (if i <? (n - 1) / 2 + 1 then i else i - n) * (1 / (inject_Z n * d)))%Q.

Definition fftfreq (n : Z) (d : Q) : list Q :=
  map (fun i => fftfreq_at n d (Z.of_nat i)) (seq 0 (Z.to_nat n)).

(** [freq[fft == m]]: the entries of [freq] at the positions where [fft]
    equals [m]. *)
Fixpoint mask_eq (freq fft : list Q) (m : Q) : list Q :=
  match freq, fft with
  | f :: freq', x :: fft' =>
      if Qeq_bool x m then f :: mask_eq freq' fft' m else mask_eq freq' fft' m
  | _, _ => []
  end.

(** [abs(freq[fft == np.amax(fft)][0])] with
    [freq = np.fft.fftfreq(len(fft), d=1. / SAMPLE_RATE)]: the first lines of
    each [generate]. *)
Definition dominant_frequency (fft : list Q) : outcome Q :=
  let freq := fftfreq (Z.of_nat (length fft)) (1 / inject_Z SAMPLE_RATE)%Q in
  obind (amax_Q fft) (fun m =>
  match mask_eq freq fft m with
  | [] => Raise (ValueError "index 0 is out of bounds for axis 0 with size 0")
  | f :: _ => Ok (Qabs f)
  end).

(** ** A state and exception monad

    A method reads and writes the fields of [self] and may raise; the
    assignments made before an exception stay. *)

Definition M (S A : Type) : Type := S -> outcome A * S.

Definition ret {S A : Type} (a : A) : M S A := fun s => (Ok a, s).

Definition bind {S A B : Type} (c : M S A) (k : A -> M S B) : M S B :=
  fun s =>
    match c s with
    | (Ok a, s') => k a s'
    | (Raise e, s') => (Raise e, s')
    end.

Definition get {S : Type} : M S S := fun s => (Ok s, s).
Definition modify {S : Type} (f : S -> S) : M S unit := fun s => (Ok tt, f s).
Definition lift {S A : Type} (c : outcome A) : M S A := fun s => (c, s).

Declare Scope py_scope.
Delimit Scope py_scope with py.
Notation "x <- c ;; k" := (bind c (fun x => k))
  (at level 61, c at next level, right associativity) : py_scope.
Notation "c ;; k" := (bind c (fun _ => k))
  (at level 61, right associativity) : py_scope.

(** ** [CustomVisualizer]: the fields of an instance

    [inner_circ] and [outer_circ] are assigned once and never read; they are
    left out.  [width] and [height] are what [self.width()] and
    [self.height()] return: the host sets them. *)

Record CustomVisualizer : Type := mkCustomVisualizer {
  columns : Z;
  brush : QBrush;
  ampl_range : num * num;      (* (lower bound, spectrum width) *)
  freq_range : num * num;      (* (lower bound, spectrum width) *)
  max_points : Z;
  inner_rad : Z;
  outer_rad : Z;
  center : Z * Z;
  rollingAmpl : num;
  rollingFreq : num;
  amplLearningRate : num;
  freqLearningRate : num;
  use_rolling : bool;
  display_stats : bool;
  is_fullscreen : bool;
  width : Z;
  height : Z
}.

Definition set_columns (v : Z) (s : CustomVisualizer) : CustomVisualizer :=
  mkCustomVisualizer v (brush s) (ampl_range s) (freq_range s) (max_points s)
    (inner_rad s) (outer_rad s) (center s) (rollingAmpl s) (rollingFreq s)
    (amplLearningRate s) (freqLearningRate s) (use_rolling s) (display_stats s)
    (is_fullscreen s) (width s) (height s).

Definition set_brush (v : QBrush) (s : CustomVisualizer) : CustomVisualizer :=
  mkCustomVisualizer (columns s) v (ampl_range s) (freq_range s) (max_points s)
    (inner_rad s) (outer_rad s) (center s) (rollingAmpl s) (rollingFreq s)
    (amplLearningRate s) (freqLearningRate s) (use_rolling s) (display_stats s)
    (is_fullscreen s) (width s) (height s).

Definition set_ampl_range (v : num * num) (s : CustomVisualizer) : CustomVisualizer :=
  mkCustomVisualizer (columns s) (brush s) v (freq_range s) (max_points s)
    (inner_rad s) (outer_rad s) (center s) (rollingAmpl s) (rollingFreq s)
    (amplLearningRate s) (freqLearningRate s) (use_rolling s) (display_stats s)
    (is_fullscreen s) (width s) (height s).

Definition set_freq_range (v : num * num) (s : CustomVisualizer) : CustomVisualizer :=
  mkCustomVisualizer (columns s) (brush s) (ampl_range s) v (max_points s)
    (inner_rad s) (outer_rad s) (center s) (rollingAmpl s) (rollingFreq s)
    (amplLearningRate s) (freqLearningRate s) (use_rolling s) (display_stats s)
    (is_fullscreen s) (width s) (height s).

Definition set_center (v : Z * Z) (s : CustomVisualizer) : CustomVisualizer :=
  mkCustomVisualizer (columns s) (brush s) (ampl_range s) (freq_range s) (max_points s)
    (inner_rad s) (outer_rad s) v (rollingAmpl s) (rollingFreq s)
    (amplLearningRate s) (freqLearningRate s) (use_rolling s) (display_stats s)
    (is_fullscreen s) (width s) (height s).

Definition set_rollingAmpl (v : num) (s : CustomVisualizer) : CustomVisualizer :=
  mkCustomVisualizer (columns s) (brush s) (ampl_range s) (freq_range s) (max_points s)
    (inner_rad s) (outer_rad s) (center s) v (rollingFreq s)
    (amplLearningRate s) (freqLearningRate s) (use_rolling s) (display_stats s)
    (is_fullscreen s) (width s) (height s).

Definition set_rollingFreq (v : num) (s : CustomVisualizer) : CustomVisualizer :=
  mkCustomVisualizer (columns s) (brush s) (ampl_range s) (freq_range s) (max_points s)
    (inner_rad s) (outer_rad s) (center s) (rollingAmpl s) v
    (amplLearningRate s) (freqLearningRate s) (use_rolling s) (display_stats s)
    (is_fullscreen s) (width s) (height s).

Definition set_amplLearningRate (v : num) (s : CustomVisualizer) : CustomVisualizer :=
  mkCustomVisualizer (columns s) (brush s) (ampl_range s) (freq_range s) (max_points s)
    (inner_rad s) (outer_rad s) (center s) (rollingAmpl s) (rollingFreq s)
    v (freqLearningRate s) (use_rolling s) (display_stats s)
    (is_fullscreen s) (width s) (height s).

Definition set_freqLearningRate (v : num) (s : CustomVisualizer) : CustomVisualizer :=
  mkCustomVisualizer (columns s) (brush s) (ampl_range s) (freq_range s) (max_points s)
    (inner_rad s) (outer_rad s) (center s) (rollingAmpl s) (rollingFreq s)
    (amplLearningRate s) v (use_rolling s) (display_stats s)
    (is_fullscreen s) (width s) (height s).

Definition set_use_rolling (v : bool) (s : CustomVisualizer) : CustomVisualizer :=
  mkCustomVisualizer (columns s) (brush s) (ampl_range s) (freq_range s) (max_points s)
    (inner_rad s) (outer_rad s) (center s) (rollingAmpl s) (rollingFreq s)
    (amplLearningRate s) (freqLearningRate s) v (display_stats s)
    (is_fullscreen s) (width s) (height s).

Definition set_display_stats (v : bool) (s : CustomVisualizer) : CustomVisualizer :=
  mkCustomVisualizer (columns s) (brush s) (ampl_range s) (freq_range s) (max_points s)
    (inner_rad s) (outer_rad s) (center s) (rollingAmpl s) (rollingFreq s)
    (amplLearningRate s) (freqLearningRate s) (use_rolling s) v
    (is_fullscreen s) (width s) (height s).

Definition set_is_fullscreen (v : bool) (s : CustomVisualizer) : CustomVisualizer :=
  mkCustomVisualizer (columns s) (brush s) (ampl_range s) (freq_range s) (max_points s)
    (inner_rad s) (outer_rad s) (center s) (rollingAmpl s) (rollingFreq s)
    (amplLearningRate s) (freqLearningRate s) (use_rolling s) (display_stats s)
    v (width s) (height s).

(** The host resizes the widget. *)
Definition resize (w h : Z) (s : CustomVisualizer) : CustomVisualizer :=
  mkCustomVisualizer (columns s) (brush s) (ampl_range s) (freq_range s) (max_points s)
    (inner_rad s) (outer_rad s) (center s) (rollingAmpl s) (rollingFreq s)
    (amplLearningRate s) (freqLearningRate s) (use_rolling s) (display_stats s)
    (is_fullscreen s) w h.

(** [CustomVisualizer.__init__], on a widget of the size [sizeHint] asks for. *)
Definition CustomVisualizer_init (cols : Z) : CustomVisualizer :=
  {| columns := cols;
     brush := nth 0 brushes white;
     ampl_range := (PInt 1000, PInt 100);
     freq_range := (PInt 1000, PInt 100);
     max_points := 128;
     inner_rad := 50;
     outer_rad := 400;
     center := (400, 400);
     rollingAmpl := PInt 80;
     rollingFreq := PInt 300;
     amplLearningRate := PFloat (90 # 100);
     freqLearningRate := PFloat (90 # 100);
     use_rolling := false;
     display_stats := false;
     is_fullscreen := false;
     width := 800;
     height := 800 |}.

(** ** [CustomVisualizer]: the methods *)

Local Open Scope py_scope.

(** [__getDecimalRange__(val, isAmpl)]. *)
Definition getDecimalRange (val : num) (isAmpl : bool) : M CustomVisualizer num :=
  self <- get ;;
  if isAmpl then
    valRatio <- lift (div (sub val (fst (ampl_range self))) (snd (ampl_range self))) ;;
    (if gtb valRatio 1 then
       modify (set_ampl_range (fst (ampl_range self), sub val (fst (ampl_range self))))
     else if ltb valRatio 0 then
       modify (set_ampl_range (val, snd (ampl_range self)))
     else ret tt) ;;
    ret valRatio
  else
    valRatio <- lift (div (sub val (fst (freq_range self))) (snd (freq_range self))) ;;
    (if gtb valRatio 1 then
       modify (set_freq_range (fst (freq_range self), sub val (fst (freq_range self))))
     else if ltb valRatio 0 then
       modify (set_freq_range (val, snd (freq_range self)))
     else ret tt) ;;
    ret valRatio.

(** [__getStarPair__(points, idx)]: the inner point at angle
    [idx / points * 2 pi] and the outer point half a step further. *)
Definition getStarPair (self : CustomVisualizer) (points idx : Z) : vertex * vertex :=
  (InnerPoint points idx (inner_rad self) (center self),
   OuterPoint points idx (outer_rad self) (center self)).

(** [__getStarPoints__(points)]. *)
Definition getStarPoints (self : CustomVisualizer) (points : Z) : list vertex :=
  flat_map (fun point =>
              let '(point1, point2) := getStarPair self points (Z.of_nat point) in
              [point1; point2])
           (seq 0 (Z.to_nat points)).

(** The body of [__getColor__] after the call of [__getDecimalRange__]. *)
Definition color_of_ratio (colVal : num) : QColor :=
  let pastHalf := gtb colVal (PFloat (1 # 2)) in
  let color := if pastHalf then mul (sub colVal (PFloat (1 # 2))) 2 else mul colVal 2 in
  let color := mul color 255 in
  let color := if ltb color 0 then PInt 0 else color in
  let color := if gtb color 255 then PInt 255 else color in
  if pastHalf
  then mkQColor color (sub 255 color) 0
  else mkQColor 0 color (sub 255 color).

(** [__getColor__(val)]. *)
Definition getColor (val : num) : M CustomVisualizer QBrush :=
  colVal <- getDecimalRange val false ;;
  ret (color_of_ratio colVal).

(** The point count of [__getPoints__]: the argument it passes to
    [__getStarPoints__], from the amplitude ratio. *)
Definition point_count (maxPoints : Z) (ratio : num) : Z :=
  let points := mul ratio maxPoints in
  let points := if ltb points 2 then PInt 2 else points in
  let points := if gtb points maxPoints then PInt maxPoints else points in
  int points.

(** [__getPoints__(val)]. *)
Definition getPoints (val : num) : M CustomVisualizer (list vertex) :=
  ratio <- getDecimalRange val true ;;
  self <- get ;;
  ret (getStarPoints self (point_count (max_points self) ratio)).

(** [__updateMaximums__()]. *)
Definition updateMaximums : M CustomVisualizer unit :=
  modify (fun self =>
            set_ampl_range (fst (ampl_range self),
                            mul (snd (ampl_range self)) (PFloat (999 # 1000))) self) ;;
  modify (fun self =>
            set_freq_range (fst (freq_range self),
                            mul (snd (freq_range self)) (PFloat (999 # 1000))) self).

(** [__updateRolling__(max_amplitude, max_freq)]. *)
Definition updateRolling (max_amplitude max_freq : num) : M CustomVisualizer unit :=
  modify (fun self =>
            set_rollingAmpl
              (add (mul (rollingAmpl self) (amplLearningRate self))
                   (mul max_amplitude (sub 1 (amplLearningRate self)))) self) ;;
  modify (fun self =>
            set_rollingFreq
              (add (mul (rollingFreq self) (freqLearningRate self))
                   (mul max_freq (sub 1 (freqLearningRate self)))) self).

(** [keyPressEvent(event)], on the key code of the event. *)
Definition keyPressEvent (key : Z) : M CustomVisualizer unit :=
  self <- get ;;
  if key =? Key_S then
    modify (set_display_stats (negb (display_stats self)))
  else if key =? Key_R then
    modify (set_use_rolling (negb (use_rolling self)))
  else if key =? Key_Equal then
    if ltb (amplLearningRate self) (PFloat (99 # 100)) then
      modify (set_amplLearningRate (add (amplLearningRate self) (PFloat (1 # 100)))) ;;
      modify (set_freqLearningRate (add (freqLearningRate self) (PFloat (1 # 100))))
    else ret tt
  else if key =? Key_Minus then
    if gtb (amplLearningRate self) (PFloat (1 # 100)) then
      modify (set_amplLearningRate (sub (amplLearningRate self) (PFloat (1 # 100)))) ;;
      modify (set_freqLearningRate (sub (freqLearningRate self) (PFloat (1 # 100))))
    else ret tt
  else if key =? Key_Escape then
    (* showNormal() / showFullScreen(): the host resizes the widget later *)
    modify (set_is_fullscreen (negb (is_fullscreen self))) ;;
    modify (set_center (width self / 2, height self / 2))
  else
    match lookup_key key color_bindings with
    | Some b => modify (set_brush b)
    | None =>
        if Key_0 =? key then modify (set_columns 10)
        else if (Key_1 <=? key) && (key <=? Key_9) then
          modify (set_columns (key - Key_1 + 1))
        else ret tt
    end.

Section NumPy.

(** [rfft_abs data] is [np.absolute(np.fft.rfft(data, n=len(data)))] and
    [str_float q] is [str] of the float [q]: both are computed outside the
    module. *)
Variable rfft_abs : list Z -> list Q.
Variable str_float : Q -> string.

Definition str (a : num) : string :=
  match a with
  | PInt z => str_int z
  | PFloat q => str_float q
  end.

(** [getTrimString(num)]: [str.index] raises when there is no ["."]. *)
Definition getTrimString (a : num) : outcome string :=
  let numString := str a in
  match String.index 0 "." numString with
  | None => Raise (ValueError "substring not found")
  | Some decimalSpot => Ok (String.substring 0 (decimalSpot + 2) numString)
  end.

(** [np.fft.rfft(data, n=len(data))] refuses an empty block. *)
Definition rfft_absolute (data : list Z) : outcome (list Q) :=
  match data with
  | [] => Raise (ValueError "Invalid number of FFT data points (0) specified.")
  | _ => Ok (rfft_abs data)
  end.

(** [__drawStats__(painter, max_amplitude, max_freq)]: the commands it
    issues, in order; the arguments of a call are evaluated before it. *)
Definition drawStats (self : CustomVisualizer) (max_amplitude max_freq : num)
  : outcome (list paint) :=
  let topLeftRect := mkQRect 0 0 200 50 in
  let topRightRect := mkQRect (width self - 200) 0 200 50 in
  let topLeftText := mkQRect 10 5 180 40 in
  let topRightText := mkQRect (width self - 190) 5 180 40 in
  obind (getTrimString max_amplitude) (fun amplText =>
  obind (getTrimString max_freq) (fun freqText =>
  let bottomLeftRect := mkQRect 0 (height self - 70) 250 70 in
  let bottomLeftText := mkQRect 10 (height self - 65) 230 60 in
  obind (getTrimString (fst (ampl_range self))) (fun amplLow =>
  obind (getTrimString (add (fst (ampl_range self)) (snd (ampl_range self)))) (fun amplHigh =>
  obind (getTrimString (fst (freq_range self))) (fun freqLow =>
  obind (getTrimString (add (snd (freq_range self)) (fst (freq_range self)))) (fun freqHigh =>
  Ok ([ drawQRect topLeftRect white;
        drawQRect topRightRect white;
        drawText topLeftText AlignLeft AlignVCenter "Amplitude";
        drawText topLeftText AlignRight AlignVCenter amplText;
        drawText topRightText AlignLeft AlignVCenter "Frequency";
        drawText topRightText AlignRight AlignVCenter freqText;
        drawQRect bottomLeftRect white;
        drawText bottomLeftText AlignLeft AlignTop "Ampl";
        drawText bottomLeftText AlignHCenter AlignTop amplLow;
        drawText bottomLeftText AlignRight AlignTop amplHigh;
        drawText bottomLeftText AlignLeft AlignBottom "Freq";
        drawText bottomLeftText AlignHCenter AlignBottom freqLow;
        drawText bottomLeftText AlignRight AlignBottom freqHigh ]
      ++
      (if use_rolling self then
         let bottomRightRect := mkQRect (width self - 200) (height self - 50) 200 50 in
         let bottomRightText := mkQRect (width self - 190) (height self - 45) 180 40 in
         [ drawQRect bottomRightRect white;
           drawText bottomRightText AlignLeft AlignVCenter "Learning Rate";
           drawText bottomRightText AlignRight AlignVCenter (str (amplLearningRate self)) ]
       else [])))))))).

(** [CustomVisualizer.generate(data)]. *)
Definition generate (data : list Z) : M CustomVisualizer QImage :=
  fft <- lift (rfft_absolute data) ;;
  max_freq <- lift (dominant_frequency fft) ;;
  max_amplitude <- lift (amax_Z data) ;;
  updateRolling (PInt max_amplitude) (PFloat max_freq) ;;
  updateMaximums ;;
  self <- get ;;
  let '(ampl, freq) :=
    if use_rolling self
    then (rollingAmpl self, rollingFreq self)
    else (PInt max_amplitude, PFloat max_freq) in
  brush <- getColor freq ;;
  star_points <- getPoints ampl ;;
  self <- get ;;
  stats <- (if display_stats self then lift (drawStats self ampl freq) else ret []) ;;
  ret (mkQImage (width self) (height self) (stats ++ [drawPolygon star_points brush])).

End NumPy.

(** ** [LineVisualizer] *)

Record LineVisualizer : Type := mkLineVisualizer {
  l_columns : Z;
  l_brush : QBrush;
  display_odds : bool;
  display_evens : bool;
  l_is_fullscreen : bool;
  l_width : Z;
  l_height : Z
}.

Definition LineVisualizer_init (cols : Z) : LineVisualizer :=
  {| l_columns := cols;
     l_brush := nth 0 brushes white;
     display_odds := true;
     display_evens := true;
     l_is_fullscreen := false;
     l_width := 800;
     l_height := 800 |}.

(** [xrange(0, stop, step)] for a positive [step]; a zero step raises. *)
Definition xrange (stop step : Z) : outcome (list Z) :=
  if step =? 0 then Raise (ValueError "xrange() arg 3 must not be zero")
  else Ok (map (fun k => Z.of_nat k * step)
               (seq 0 (Z.to_nat ((stop + step - 1) / step)))).

(** [random.randint(a, b)] on the raw draw [u] of the generator: the range
    [a..b] must not be empty. *)
Definition randint (a b : Z) (u : Z) : outcome Z :=
  if b <? a then Raise (ValueError "empty range for randrange()")
  else Ok (a + u mod (b - a + 1)).

(** The height of the rectangles, from the height of the widget and the
    dominant frequency ([generate], the lines after [freq_cap]). *)
Definition rect_height_of (h : Z) (max_freq : Q) : Z :=
  let freq_cap := PFloat 20000 in
  if geb (PFloat max_freq) freq_cap then 1
  else
    let rect_height :=
      match div (mul (PInt h) (PFloat max_freq)) freq_cap with
      | Ok v => int v
      | Raise _ => 0
      end in
    if rect_height =? 2 then 1 else rect_height.

Section LineVisualizer_generate.

Variable rfft_abs : list Z -> list Q.
(** The raw draws of the [random] module, in the order they are made. *)
Variable draws : nat -> Z.

(** The inner loop: the cells of one column [x], from draw number [n] on. *)
Fixpoint line_cells (self : LineVisualizer) (rect_width rect_height bound x : Z)
         (ys : list Z) (n : nat) : outcome (list paint * nat) :=
  match ys with
  | [] => Ok ([], n)
  | y :: ys' =>
      obind (randint 0 bound (draws n)) (fun r =>
      obind (line_cells self rect_width rect_height bound x ys' (S n)) (fun '(rest, n') =>
      Ok ((if r =? 0 then []
           else
             (if display_evens self
              then [drawRect x y rect_width rect_height (l_brush self)] else [])
             ++
             (if display_odds self
              then [drawRect (x + rect_width) (l_height self - y - rect_height)
                             rect_width rect_height (l_brush self)] else []))
          ++ rest, n')))
  end.

(** The outer loop over the columns. *)
Fixpoint line_columns (self : LineVisualizer) (rect_width rect_height bound : Z)
         (xs : list Z) (n : nat) : outcome (list paint * nat) :=
  match xs with
  | [] => Ok ([], n)
  | x :: xs' =>
      obind (xrange (l_height self) (2 * rect_height)) (fun ys =>
      obind (line_cells self rect_width rect_height bound x ys n) (fun '(cells, n1) =>
      obind (line_columns self rect_width rect_height bound xs' n1) (fun '(rest, n2) =>
      Ok (cells ++ rest, n2))))
  end.

(** [LineVisualizer.generate(data)]: the image, and the number of draws
    made. *)
Definition line_generate (self : LineVisualizer) (data : list Z)
  : outcome (QImage * nat) :=
  obind (rfft_absolute rfft_abs data) (fun fft =>
  obind (dominant_frequency fft) (fun max_freq =>
  obind (amax_Z data) (fun max_amplitude =>
  obind (div (PInt (l_width self)) (PInt (l_columns self * 2))) (fun q =>
  let rect_width := int q in
  let rect_height := rect_height_of (l_height self) max_freq in
  if 1 <=? rect_height then
    obind (xrange (l_width self - rect_width) (rect_width * 2)) (fun xs =>
    obind (div (PInt max_amplitude) (float (PInt SAMPLE_MAX))) (fun a =>
    let bound := int (mul a 10) in
    obind (line_columns self rect_width rect_height bound xs 0) (fun '(cells, n) =>
    Ok (mkQImage (l_width self) (l_height self) cells, n))))
  else Ok (mkQImage (l_width self) (l_height self) [], O))))).

End LineVisualizer_generate.

(** ** [Spectrogram] *)

(** [np.mean]: NaN ([None]) on an empty slice. *)
Definition mean (xs : list Q) : option Q :=
  match xs with
  | [] => None
  | _ => Some (fold_left Qplus xs 0 / inject_Z (Z.of_nat (length xs)))%Q
  end.

(** [fft[i:j]]: a slice stops at the end of the sequence. *)
Definition slice {A : Type} (xs : list A) (i j : nat) : list A :=
  firstn (j - i) (skipn i xs).

(** The bins of [Spectrogram.generate]: [bins = np.zeros(200)], then
    [bins[i] = np.mean(fft[i:i + step])] for each [i]. *)
Definition spectrogram_bins (fft : list Q) : list (option Q) :=
  let len_bins := 200%nat in
  let step := Z.to_nat (Z.of_nat (length fft) / Z.of_nat len_bins) in
  map (fun i => mean (slice fft i (i + step))) (seq 0 len_bins).

(** One bar of the histogram: the arguments of [painter.drawRect] for bin
    number [i]. *)
Definition spectrogram_bar (w h : Z) (len_bins : nat) (i : nat) (bin : option Q) : paint :=
  let height := option_map (fun b => (inject_Z h * b / inject_Z SAMPLE_MAX / 10)%Q) bin in
  let width := (inject_Z w / inject_Z (Z.of_nat len_bins))%Q in
  drawRectF (Some (inject_Z (Z.of_nat i) * width)%Q)
            (option_map (fun hh => (inject_Z h - hh)%Q) height)
            (Some width) height white.

Fixpoint enumerate {A : Type} (n : nat) (xs : list A) : list (nat * A) :=
  match xs with
  | [] => []
  | x :: xs' => (n, x) :: enumerate (S n) xs'
  end.

Section Spectrogram_generate.

Variable rfft_abs : list Z -> list Q.

(** [Spectrogram.generate(data)] on a widget of size [w] x [h]. *)
Definition spectrogram_generate (w h : Z) (data : list Z) : outcome QImage :=
  obind (rfft_absolute rfft_abs data) (fun fft =>
  obind (dominant_frequency fft) (fun f =>
  let max_freq := (f / 2)%Q in
  obind (amax_Z data) (fun max_amplitude =>
  let bins := spectrogram_bins fft in
  Ok (mkQImage w h
        (map (fun '(i, bin) => spectrogram_bar w h (length bins) i bin)
             (enumerate 0 bins)))))).

End Spectrogram_generate.

(** ** [Visualizer.refresh] *)

(** What one call of [refresh] did: the pixmap it set, the value of its local
    variable [interval] at the end, and the delay passed to
    [QtCore.QTimer.singleShot], if it was called. *)
Record tick : Type := mkTick {
  setPixmap : option QImage;
  interval : num;
  singleShot : option Z
}.

Section Visualizer_refresh.

(** [update_interval] is the field of the instance, [generate_frame] the
    [generate] of the subclass.  [get_data] is the result of
    [self.get_data()], [clock1] and [clock2] the two readings of
    [time.clock()] in seconds, [isVisible] the result of
    [self.isVisible()]. *)
Variable update_interval : Z.
Variable generate_frame : list Z -> outcome QImage.

Definition refresh (get_data : option (list Z)) (clock1 clock2 : Q) (isVisible : bool)
  : outcome tick :=
  let data := get_data in
  let interval0 := PInt update_interval in
  obind (match data with
         | Some block =>
             let t1 := clock1 in
             obind (generate_frame block) (fun img =>
             Ok (Some img,
                 sub interval0 (mul 1000 (sub (PFloat clock2) (PFloat t1)))))
         | None => Ok (None, interval0)
         end) (fun '(pix, interval1) =>
  Ok (mkTick pix interval1
             (if isVisible then Some update_interval else None))).

End Visualizer_refresh.

(** The default of [Visualizer.__init__]: 33 ms, about 30 frames a second. *)
Definition default_update_interval : Z := 33.

(** * Definitions used by the statements *)

Definition range_of (isAmpl : bool) (self : CustomVisualizer) : num * num :=
  if isAmpl then ampl_range self else freq_range self.

Definition set_range (isAmpl : bool) (v : num * num) (self : CustomVisualizer)
  : CustomVisualizer :=
  if isAmpl then set_ampl_range v self else set_freq_range v self.

Definition pos_width (isAmpl : bool) (self : CustomVisualizer) : Prop :=
  (0 < to_Q (snd (range_of isAmpl self)))%Q.

Definition pos_widths (self : CustomVisualizer) : Prop :=
  pos_width true self /\ pos_width false self.

(** The operations on the ranges: a call of [__getDecimalRange__] on either
    channel, or the decay of a frame. *)
Inductive range_op : Type :=
| Normalize (val : num) (isAmpl : bool)
| Decay.

Definition range_step (self : CustomVisualizer) (o : range_op) : CustomVisualizer :=
  match o with
  | Normalize val isAmpl => snd (getDecimalRange val isAmpl self)
  | Decay => snd (updateMaximums self)
  end.

(** The states after each operation of a sequence, in order. *)
Fixpoint range_trace (self : CustomVisualizer) (ops : list range_op) : list CustomVisualizer :=
  match ops with
  | [] => []
  | o :: ops' => range_step self o :: range_trace (range_step self o) ops'
  end.

(** The two clamps of [__getColor__]. *)
Definition clamp_byte (color : num) : num :=
  let color := if ltb color 0 then PInt 0 else color in
  if gtb color 255 then PInt 255 else color.




(** The mean of the spectrum over the indices [i, i + step), index by index:
    the wording of the specification, to compare with the slice of the code.
    Over no index at all there is no mean. *)
Definition mean_over (fft : list Q) (i step : nat) : option Q :=
  match step with
  | O => None
  | _ => Some (fold_left Qplus (map (fun j => nth j fft 0%Q) (seq i step)) 0
               / inject_Z (Z.of_nat step))%Q
  end.

(** What the specification says of the bar drawn for bin number [i], whose
    magnitude is [bin]: its width is a 200th of the screen width, its height
    is [(bin / SAMPLE_MAX / 10) * h] and it ends at the bottom of the frame.
    A bin without a mean (NaN) gives a bar without a height. *)
Definition bar_matches (w h : Z) (i : nat) (bin : option Q) (p : paint) : Prop :=
  match p with
  | drawRectF (Some x) y (Some wd) hg b =>
      b = white /\
      (wd == inject_Z w / 200)%Q /\
      (x == inject_Z (Z.of_nat i) * wd)%Q /\
      match bin, y, hg with
      | Some m, Some y', Some hg' =>
          (hg' == m / inject_Z SAMPLE_MAX / 10 * inject_Z h)%Q /\
          (y' + hg' == inject_Z h)%Q
      | None, None, None => True
      | _, _, _ => False
      end
  | _ => False
  end.

(** The spectrum of a silent block: [len / 2 + 1] zeros. *)
Definition silent_spectrum (data : list Z) : list Q :=
  repeat 0%Q (length data / 2 + 1).

(** A property of the state that a method keeps, whether it returns or
    raises. *)
Definition stable {S A : Type} (I : S -> Prop) (c : M S A) : Prop :=
  forall s, I s -> I (snd (c s)).

(** The two learning rates are one, the widths are positive, and
    [max_points] is the constant of [__init__]. *)
Definition rates_equal (s : CustomVisualizer) : Prop :=
  amplLearningRate s = freqLearningRate s.

Definition visualizer_inv (s : CustomVisualizer) : Prop :=
  rates_equal s /\ pos_widths s /\ max_points s = 128.

(** The states of a [CustomVisualizer]: created by [__init__], then changed
    by key events, by the frames it generates (on any block, whether
    [generate] returns or raises) and by the host resizing the widget. *)
Inductive reachable : CustomVisualizer -> Prop :=
| reach_init (cols : Z) : reachable (CustomVisualizer_init cols)
| reach_key (key : Z) (s : CustomVisualizer) :
    reachable s -> reachable (snd (keyPressEvent key s))
| reach_generate (rfft_abs : list Z -> list Q) (str_float : Q -> string)
                 (data : list Z) (s : CustomVisualizer) :
    reachable s -> reachable (snd (generate rfft_abs str_float data s))
| reach_resize (w h : Z) (s : CustomVisualizer) :
    reachable s -> reachable (resize w h s).

Fixpoint no_dot (s : string) : Prop :=
  match s with
  | EmptyString => True
  | String c s' => c <> "."%char /\ no_dot s'
  end.

(** The spectrum of a block of one sample [x] is [[|x|]]. *)
Definition one_sample_spectrum (data : list Z) : list Q :=
  map (fun x => inject_Z (Z.abs x)) data.

(** The delay the specification asks for:
    [max(0, targetInterval - elapsedProcessingTime)], in milliseconds. *)
Definition delay_of_specification (targetInterval : Z) (elapsed : Q) : Q :=
  Qmax 0 (inject_Z targetInterval - elapsed).

(** [n] frames' worth of decay: [__updateMaximums__] called [n] times. *)
Fixpoint decay_n (n : nat) (self : CustomVisualizer) : CustomVisualizer :=
  match n with
  | O => self
  | S n' => snd (updateMaximums (decay_n n' self))
  end.

(** The fields of a [CustomVisualizer] other than the two ranges and the two
    rolling estimates. *)
Definition config (s : CustomVisualizer)
  : Z * QBrush * Z * Z * Z * (Z * Z) * num * num * bool * bool * bool * Z * Z :=
  (columns s, brush s, max_points s, inner_rad s, outer_rad s, center s,
   amplLearningRate s, freqLearningRate s, use_rolling s, display_stats s,
   is_fullscreen s, width s, height s).

(** A learning rate that is a whole number of hundredths, from 0.01 to
    0.99. *)
Definition hundredth_rate (r : num) : Prop :=
  exists k : Z, 1 <= k <= 99 /\ (to_Q r == inject_Z k / 100)%Q.


(** ** [LineVisualizer.keyPressEvent] *)

Definition l_set_columns (v : Z) (s : LineVisualizer) : LineVisualizer :=
  mkLineVisualizer v (l_brush s) (display_odds s) (display_evens s)
    (l_is_fullscreen s) (l_width s) (l_height s).

Definition l_set_brush (v : QBrush) (s : LineVisualizer) : LineVisualizer :=
  mkLineVisualizer (l_columns s) v (display_odds s) (display_evens s)
    (l_is_fullscreen s) (l_width s) (l_height s).

Definition set_display_odds (v : bool) (s : LineVisualizer) : LineVisualizer :=
  mkLineVisualizer (l_columns s) (l_brush s) v (display_evens s)
    (l_is_fullscreen s) (l_width s) (l_height s).

Definition set_display_evens (v : bool) (s : LineVisualizer) : LineVisualizer :=
  mkLineVisualizer (l_columns s) (l_brush s) (display_odds s) v
    (l_is_fullscreen s) (l_width s) (l_height s).

Definition l_set_is_fullscreen (v : bool) (s : LineVisualizer) : LineVisualizer :=
  mkLineVisualizer (l_columns s) (l_brush s) (display_odds s) (display_evens s)
    v (l_width s) (l_height s).

(** The host resizes the widget. *)
Definition l_resize (w h : Z) (s : LineVisualizer) : LineVisualizer :=
  mkLineVisualizer (l_columns s) (l_brush s) (display_odds s) (display_evens s)
    (l_is_fullscreen s) w h.

(** [LineVisualizer.keyPressEvent(event)], on the key code of the event. *)
Definition line_keyPressEvent (key : Z) : M LineVisualizer unit :=
  self <- get ;;
  if key =? Key_I then
    modify (set_display_evens true) ;;
    modify (set_display_odds true)
  else if key =? Key_O then
    modify (set_display_evens true) ;;
    modify (set_display_odds false)
  else if key =? Key_P then
    modify (set_display_evens false) ;;
    modify (set_display_odds true)
  else if key =? Key_Escape then
    (* showNormal() / showFullScreen(): the host resizes the widget later *)
    modify (l_set_is_fullscreen (negb (l_is_fullscreen self)))
  else
    match lookup_key key color_bindings with
    | Some b => modify (l_set_brush b)
    | None =>
        if Key_0 =? key then modify (l_set_columns 10)
        else if (Key_1 <=? key) && (key <=? Key_9) then
          modify (l_set_columns (key - Key_1 + 1))
        else ret tt
    end.

(** The states of a [LineVisualizer] created with [cols] columns: key events
    and resizes ([generate] assigns no field). *)
Inductive line_reachable (cols : Z) : LineVisualizer -> Prop :=
| line_reach_init : line_reachable cols (LineVisualizer_init cols)
| line_reach_key (key : Z) (s : LineVisualizer) :
    line_reachable cols s -> line_reachable cols (snd (line_keyPressEvent key s))
| line_reach_resize (w h : Z) (s : LineVisualizer) :
    line_reachable cols s -> line_reachable cols (l_resize w h s).

(** The rectangles [generate] paints have the width and the height it
    computed and the brush of the visualizer. *)
Definition line_rect (rect_width rect_height : Z) (b : QBrush) (p : paint) : Prop :=
  exists x y : Z, p = drawRect (PInt x) (PInt y) (PInt rect_width) (PInt rect_height) b.

(** What the key events of a [LineVisualizer] keep. *)
Definition line_inv (s : LineVisualizer) : Prop :=
  (display_evens s || display_odds s = true) /\
  In (l_brush s) brushes /\
  1 <= l_columns s <= 10.

(** The brushes a [CustomVisualizer] can hold: the palette without blue,
    whose key R toggles the rolling mode there. *)
Definition custom_brushes : list QBrush :=
  [ mkQColor 255 255 255; mkQColor 255 0 0; mkQColor 0 240 0;
    mkQColor 255 255 0; mkQColor 0 255 255 ].

(** * Properties *)

(** ** Comparisons and arithmetic of Python numbers *)

Lemma Qltb_true (x y : Q) : Qltb x y = true <-> (x < y)%Q.
Proof.
  unfold Qltb. rewrite negb_true_iff. split; intro H.
  - apply Qnot_le_lt. intro L. apply Qle_bool_iff in L. congruence.
  - destruct (Qle_bool y x) eqn:E; [|reflexivity].
    apply Qle_bool_iff in E. exfalso. exact (Qlt_not_le _ _ H E).
Qed.

Lemma Qltb_false (x y : Q) : Qltb x y = false <-> (y <= x)%Q.
Proof.
  unfold Qltb. rewrite negb_false_iff. apply Qle_bool_iff.
Qed.

Lemma Qleb_true (x y : Q) : Qleb x y = true <-> (x <= y)%Q.
Proof. apply Qle_bool_iff. Qed.

Lemma Qleb_false (x y : Q) : Qleb x y = false <-> (y < x)%Q.
Proof.
  unfold Qleb. split; intro H.
  - apply Qnot_le_lt. intro L. apply Qle_bool_iff in L. congruence.
  - destruct (Qle_bool x y) eqn:E; [|reflexivity].
    apply Qle_bool_iff in E. exfalso. exact (Qlt_not_le _ _ H E).
Qed.

Lemma to_Q_add (a b : num) : (to_Q (add a b) == to_Q a + to_Q b)%Q.
Proof. destruct a, b; simpl; try reflexivity. rewrite inject_Z_plus. reflexivity. Qed.

Lemma to_Q_sub (a b : num) : (to_Q (sub a b) == to_Q a - to_Q b)%Q.
Proof.
  destruct a as [x|p], b as [y|q]; simpl; try reflexivity;
    unfold Qeq, Qminus, Qplus, Qopp; simpl; ring.
Qed.

Lemma to_Q_mul (a b : num) : (to_Q (mul a b) == to_Q a * to_Q b)%Q.
Proof. destruct a, b; simpl; reflexivity. Qed.

(** Division by a non-zero number does not raise. *)
Lemma div_ok (a b : num) :
  ~ (to_Q b == 0)%Q -> exists r, div a b = Ok r.
Proof.
  intro H. unfold div.
  destruct (Qeq_bool (to_Q b) 0) eqn:E.
  - apply Qeq_bool_iff in E. contradiction.
  - eexists. reflexivity.
Qed.

(** True division, as soon as the divisor is a float. *)
Lemma div_float (a : num) (w : Q) :
  ~ (w == 0)%Q -> div a (PFloat w) = Ok (PFloat (to_Q a / w)).
Proof.
  intro H. unfold div. simpl.
  destruct (Qeq_bool w 0) eqn:E.
  - apply Qeq_bool_iff in E. contradiction.
  - destruct a; reflexivity.
Qed.

(** Floor division between integers. *)
Lemma div_int (x y : Z) : y <> 0 -> div (PInt x) (PInt y) = Ok (PInt (x / y)).
Proof.
  intro H. unfold div. simpl.
  destruct (Qeq_bool (inject_Z y) 0) eqn:E; [|reflexivity].
  apply Qeq_bool_iff in E. unfold Qeq in E. simpl in E. lia.
Qed.

(** A quotient above one by a positive divisor has a positive dividend:
    what keeps a grown width positive. *)
Lemma div_gt_one_pos (a b r : num) :
  (0 < to_Q b)%Q -> div a b = Ok r -> (1 < to_Q r)%Q -> (0 < to_Q a)%Q.
Proof.
  intros Hb Hd Hr. unfold div in Hd.
  destruct (Qeq_bool (to_Q b) 0); [discriminate|].
  inversion Hd; subst r; clear Hd.
  destruct a as [x|p], b as [y|q]; simpl in *.
  - unfold Qlt in *. simpl in *.
    assert (0 < y) by lia. assert (1 < x / y) by lia.
    destruct (Z_le_gt_dec x 0) as [Hx|Hx]; [|lia].
    assert (x / y <= 0) by (apply Z.div_le_upper_bound; lia). lia.
  - apply Qnot_le_lt. intro Hx.
    assert (inject_Z x / q <= 0)%Q.
    { unfold Qdiv. setoid_replace 0%Q with (0 * / q)%Q by ring.
      apply Qmult_le_compat_r; [exact Hx|]. apply Qlt_le_weak, Qinv_lt_0_compat, Hb. }
    lra.
  - apply Qnot_le_lt. intro Hx.
    assert (p / inject_Z y <= 0)%Q.
    { unfold Qdiv. setoid_replace 0%Q with (0 * / inject_Z y)%Q by ring.
      apply Qmult_le_compat_r; [exact Hx|]. apply Qlt_le_weak, Qinv_lt_0_compat, Hb. }
    lra.
  - apply Qnot_le_lt. intro Hx.
    assert (p / q <= 0)%Q.
    { unfold Qdiv. setoid_replace 0%Q with (0 * / q)%Q by ring.
      apply Qmult_le_compat_r; [exact Hx|]. apply Qlt_le_weak, Qinv_lt_0_compat, Hb. }
    lra.
Qed.

(** ** The adaptive ranges *)

Lemma range_of_set_range (isAmpl : bool) (v : num * num) (self : CustomVisualizer) :
  range_of isAmpl (set_range isAmpl v self) = v.
Proof. destruct isAmpl; reflexivity. Qed.

Lemma range_of_set_other (isAmpl : bool) (v : num * num) (self : CustomVisualizer) :
  range_of (negb isAmpl) (set_range isAmpl v self) = range_of (negb isAmpl) self.
Proof. destruct isAmpl; reflexivity. Qed.

(** One call of [__getDecimalRange__], once its division is known. *)
Lemma getDecimalRange_run (val : num) (isAmpl : bool) (self : CustomVisualizer) (r : num) :
  div (sub val (fst (range_of isAmpl self))) (snd (range_of isAmpl self)) = Ok r ->
  getDecimalRange val isAmpl self =
    (Ok r,
     if gtb r 1 then
       set_range isAmpl (fst (range_of isAmpl self), sub val (fst (range_of isAmpl self))) self
     else if ltb r 0 then
       set_range isAmpl (val, snd (range_of isAmpl self)) self
     else self).
Proof.
  intro H. unfold getDecimalRange, bind, get, lift, modify, ret.
  destruct isAmpl; simpl in *; rewrite H;
    destruct (gtb r 1); [reflexivity| |reflexivity|];
    destruct (ltb r 0); reflexivity.
Qed.

(** A zero width makes the call raise, and leaves the ranges alone. *)
Lemma getDecimalRange_zero_width (val : num) (isAmpl : bool) (self : CustomVisualizer) :
  (to_Q (snd (range_of isAmpl self)) == 0)%Q ->
  getDecimalRange val isAmpl self = (Raise (ZeroDivisionError "division by zero"), self).
Proof.
  intro H. apply Qeq_bool_iff in H.
  unfold getDecimalRange, bind, get, lift, div.
  destruct isAmpl; simpl in *; rewrite H; reflexivity.
Qed.

(** With a positive width the call returns, and the width stays positive. *)
Lemma getDecimalRange_pos (val : num) (isAmpl : bool) (self : CustomVisualizer) :
  pos_widths self ->
  exists r, fst (getDecimalRange val isAmpl self) = Ok r /\
            pos_widths (snd (getDecimalRange val isAmpl self)).
Proof.
  intros [Ha Hf].
  assert (Hw : pos_width isAmpl self) by (destruct isAmpl; assumption).
  assert (Ho : pos_width (negb isAmpl) self) by (destruct isAmpl; assumption).
  destruct (div_ok (sub val (fst (range_of isAmpl self))) (snd (range_of isAmpl self)))
    as [r Hr].
  { unfold pos_width in Hw. intro E. rewrite E in Hw. exact (Qlt_irrefl _ Hw). }
  exists r. rewrite (getDecimalRange_run _ _ _ _ Hr). simpl. split; [reflexivity|].
  assert (K : forall s', pos_width isAmpl s' -> pos_width (negb isAmpl) s' -> pos_widths s').
  { intros s' H1 H2. destruct isAmpl; split; assumption. }
  destruct (gtb r 1) eqn:G.
  - apply K; unfold pos_width.
    + rewrite range_of_set_range. simpl.
      apply (div_gt_one_pos _ _ _ Hw Hr). apply Qltb_true in G. exact G.
    + rewrite range_of_set_other. exact Ho.
  - destruct (ltb r 0) eqn:L.
    + apply K; unfold pos_width.
      * rewrite range_of_set_range. exact Hw.
      * rewrite range_of_set_other. exact Ho.
    + split; assumption.
Qed.

(** The decay step keeps both widths positive. *)
Lemma updateMaximums_pos (self : CustomVisualizer) :
  pos_widths self ->
  fst (updateMaximums self) = Ok tt /\ pos_widths (snd (updateMaximums self)).
Proof.
  intros [Ha Hf]. split; [reflexivity|].
  unfold pos_widths, pos_width in *. simpl in *.
  rewrite !to_Q_mul. simpl. split.
  - apply Qmult_lt_0_compat; [exact Ha|reflexivity].
  - apply Qmult_lt_0_compat; [exact Hf|reflexivity].
Qed.

(** After the decay step both widths are floats: the division of
    [__getDecimalRange__] in [generate] is a true division. *)
Lemma updateMaximums_float (self : CustomVisualizer) :
  is_float (snd (ampl_range (snd (updateMaximums self)))) = true /\
  is_float (snd (freq_range (snd (updateMaximums self)))) = true.
Proof.
  simpl. destruct (snd (ampl_range self)), (snd (freq_range self)); split; reflexivity.
Qed.

Lemma range_step_pos (self : CustomVisualizer) (o : range_op) :
  pos_widths self -> pos_widths (range_step self o).
Proof.
  intro H. destruct o as [val isAmpl|]; simpl.
  - destruct (getDecimalRange_pos val isAmpl self H) as [r [_ Hp]]. exact Hp.
  - apply updateMaximums_pos, H.
Qed.

Lemma init_pos_widths (cols : Z) : pos_widths (CustomVisualizer_init cols).
Proof. split; reflexivity. Qed.

(** C5: whatever the sequence of [__getDecimalRange__] calls and decay steps,
    from a state whose two widths are positive, both widths are positive after
    every operation of the sequence. *)
Theorem C5_width_positive_after_every_operation
  (self : CustomVisualizer) (ops : list range_op) :
  pos_widths self -> Forall pos_widths (range_trace self ops).
Proof.
  revert self. induction ops as [|o ops IH]; intros self H; simpl.
  - constructor.
  - constructor.
    + apply range_step_pos, H.
    + apply IH, range_step_pos, H.
Qed.

(** The initial ranges (width 100), a spike, a drop and two decays. *)
Lemma C5_width_positive_witness :
  Forall pos_widths
    (range_trace (CustomVisualizer_init 1)
       [Decay; Normalize (PInt 20000) true; Normalize (PFloat (441 # 1)) false;
        Decay; Normalize (PInt (-5)) true]).
Proof.
  apply (C5_width_positive_after_every_operation (CustomVisualizer_init 1)).
  split; reflexivity.
Defined.



(** Between integers the ratio is the floor of the quotient; the two rules
    on the range are the same.  In [generate] the decay step has made the
    width a float before [__getDecimalRange__] divides by it. *)
Example getDecimalRange_integers :
  let self := set_ampl_range (PInt 100, PInt 50) (CustomVisualizer_init 1) in
  getDecimalRange (PInt 200) true self
    = (Ok (PInt 2), set_ampl_range (PInt 100, PInt 100) self) /\
  getDecimalRange (PInt 50) true self
    = (Ok (PInt (-1)), set_ampl_range (PInt 50, PInt 50) self) /\
  getDecimalRange (PInt 120) true self = (Ok (PInt 0), self).
Proof. repeat split. Qed.

(** ** The point count of the star *)

(** On a non-negative number [int] is the floor. *)
Lemma int_nonneg_floor (a : num) : (0 <= to_Q a)%Q -> int a = Qfloor (to_Q a).
Proof.
  destruct a as [z|q]; simpl; intro H.
  - symmetry. apply Qfloor_Z.
  - destruct q as [n d]. unfold Qle in H. simpl in *.
    apply Z.quot_div_nonneg; lia.
Qed.

Lemma int_between (a : num) (lo hi : Z) :
  0 <= lo -> (inject_Z lo <= to_Q a)%Q -> (to_Q a <= inject_Z hi)%Q -> lo <= int a <= hi.
Proof.
  intros Hlo H1 H2.
  assert (H0 : (0 <= to_Q a)%Q).
  { apply Qle_trans with (inject_Z lo); [|exact H1].
    change 0%Q with (inject_Z 0). rewrite <- Zle_Qle. exact Hlo. }
  rewrite (int_nonneg_floor a H0). split.
  - rewrite <- (Qfloor_Z lo). apply Qfloor_resp_le, H1.
  - rewrite <- (Qfloor_Z hi). apply Qfloor_resp_le, H2.
Qed.

(** The three cases of the clamp in [__getPoints__]. *)
Lemma point_count_cases (maxPoints : Z) (ratio : num) :
  let x := (to_Q ratio * inject_Z maxPoints)%Q in
  ((x < 2)%Q /\ point_count maxPoints ratio = (if 2 <? maxPoints then 2 else Z.min 2 maxPoints))
  \/ ((2 <= x)%Q /\ (inject_Z maxPoints < x)%Q /\ point_count maxPoints ratio = maxPoints)
  \/ ((2 <= x)%Q /\ (x <= inject_Z maxPoints)%Q /\
      point_count maxPoints ratio = int (mul ratio maxPoints)).
Proof.
  intro x. unfold point_count.
  assert (Hx : (to_Q (mul ratio maxPoints) == x)%Q) by (rewrite to_Q_mul; reflexivity).
  destruct (ltb (mul ratio maxPoints) 2) eqn:L.
  - left. apply Qltb_true in L. change (to_Q (PInt 2)) with 2%Q in L.
    rewrite Hx in L. split; [exact L|].
    unfold gtb. simpl to_Q.
    destruct (Qltb (inject_Z maxPoints) (inject_Z 2)) eqn:G.
    + apply Qltb_true in G. rewrite <- Zlt_Qlt in G. simpl.
      destruct (2 <? maxPoints) eqn:E; [apply Z.ltb_lt in E; lia|]. lia.
    + apply Qltb_false in G. rewrite <- Zle_Qle in G. simpl.
      destruct (2 <? maxPoints) eqn:E; [reflexivity|].
      apply Z.ltb_ge in E. lia.
  - apply Qltb_false in L. change (to_Q (PInt 2)) with 2%Q in L. rewrite Hx in L.
    destruct (gtb (mul ratio maxPoints) maxPoints) eqn:G.
    + right. left. apply Qltb_true in G. simpl to_Q in G. rewrite Hx in G.
      repeat split; assumption.
    + right. right. apply Qltb_false in G. simpl to_Q in G. rewrite Hx in G.
      repeat split; assumption.
Qed.


(** [__getStarPoints__] appends two vertices for each point. *)
Lemma getStarPoints_length (self : CustomVisualizer) (points : Z) :
  length (getStarPoints self points) = (2 * Z.to_nat points)%nat.
Proof.
  unfold getStarPoints.
  assert (H : forall l : list nat,
             length (flat_map (fun point =>
                                 let '(point1, point2) :=
                                   getStarPair self points (Z.of_nat point) in
                                 [point1; point2]) l) = (2 * length l)%nat).
  { induction l as [|p l IH]; simpl; [reflexivity|]. simpl in IH. rewrite IH. lia. }
  rewrite H, length_seq. reflexivity.
Qed.

(** ** The colour of the star *)


Lemma color_of_ratio_unfold (colVal : num) :
  color_of_ratio colVal =
    if gtb colVal (PFloat (1 # 2))
    then let color := clamp_byte (mul (mul (sub colVal (PFloat (1 # 2))) 2) 255) in
         mkQColor color (sub 255 color) 0
    else let color := clamp_byte (mul (mul colVal 2) 255) in
         mkQColor 0 color (sub 255 color).
Proof.
  unfold color_of_ratio, clamp_byte. destruct (gtb colVal (PFloat (1 # 2))); reflexivity.
Qed.


(** ** The rectangle height of the bar grid *)

Lemma rect_height_of_unfold (h : Z) (f : Q) :
  rect_height_of h f =
    if Qleb 20000 f then 1
    else let v := int (PFloat (inject_Z h * f / 20000)) in
         if v =? 2 then 1 else v.
Proof. reflexivity. Qed.

(** At the cap and above, the height is one pixel whatever the screen. *)
Lemma rect_height_of_cap (h : Z) (f : Q) :
  (20000 <= f)%Q -> rect_height_of h f = 1.
Proof.
  intro H. rewrite rect_height_of_unfold.
  apply Qleb_true in H. rewrite H. reflexivity.
Qed.

(** C6, as the claim states it, fails: on a screen 800 pixels high a dominant
    frequency of 50 Hz interpolates to [floor (800 * 50 / 20000) = 2], and the
    rectangle height is 1. *)
Lemma C6_rect_height_counterexample :
  (50 < 20000)%Q /\
  Qfloor (inject_Z 800 * 50 / 20000) = 2 /\
  rect_height_of 800 50 = 1 /\
  rect_height_of 800 50 <> Qfloor (inject_Z 800 * 50 / 20000).
Proof. repeat split; discriminate. Qed.

(** C6, amended: for a screen height [h >= 0] and a dominant frequency
    [f >= 0], the rectangle height is 1 when [f >= 20000]; below the cap it is
    [floor (h * f / 20000)], except that the value 2 is replaced by 1. *)
Theorem C6_rect_height_interpolation (h : Z) (f : Q) :
  0 <= h -> (0 <= f)%Q ->
  ((20000 <= f)%Q -> rect_height_of h f = 1) /\
  ((f < 20000)%Q ->
     rect_height_of h f =
       if Qfloor (inject_Z h * f / 20000) =? 2 then 1
       else Qfloor (inject_Z h * f / 20000)).
Proof.
  intros Hh Hf. split; [apply rect_height_of_cap|].
  intro Hlt. rewrite rect_height_of_unfold.
  apply Qleb_false in Hlt. rewrite Hlt. cbv zeta.
  assert (H0 : (0 <= inject_Z h * f / 20000)%Q).
  { unfold Qdiv. apply Qmult_le_0_compat; [|discriminate].
    apply Qmult_le_0_compat; [|exact Hf].
    change 0%Q with (inject_Z 0). rewrite <- Zle_Qle. exact Hh. }
  rewrite (int_nonneg_floor (PFloat (inject_Z h * f / 20000)) H0).
  reflexivity.
Qed.

(** A screen 800 pixels high: 10 kHz gives half the height, 50 Hz gives one
    pixel, the cap gives one pixel. *)
Lemma C6_rect_height_witness :
  rect_height_of 800 20000 = 1 /\
  rect_height_of 800 10000 = 400 /\
  rect_height_of 800 50 = 1.
Proof.
  split; [|split].
  - apply (proj1 (C6_rect_height_interpolation 800 20000 ltac:(lia) ltac:(discriminate))).
    discriminate.
  - rewrite (proj2 (C6_rect_height_interpolation 800 10000 ltac:(lia) ltac:(discriminate)));
      reflexivity.
  - rewrite (proj2 (C6_rect_height_interpolation 800 50 ltac:(lia) ltac:(discriminate)));
      reflexivity.
Defined.

(** ** The dominant frequency is defined on a non-empty spectrum *)

Lemma fold_Qmax_In (xs : list Q) (x : Q) : In (fold_left Qmax xs x) (x :: xs).
Proof.
  revert x. induction xs as [|y ys IH]; intro x; simpl.
  - left. reflexivity.
  - specialize (IH (Qmax x y)). simpl in IH. unfold Qmax in IH at 1.
    destruct (Qltb x y); destruct IH as [E|I]; auto.
Qed.

Lemma amax_Q_In (fft : list Q) (m : Q) : amax_Q fft = Ok m -> In m fft.
Proof.
  destruct fft as [|x xs]; simpl; intro H; [discriminate|].
  inversion H; subst m. apply fold_Qmax_In.
Qed.

Lemma mask_eq_nonempty (fft freq : list Q) (m : Q) :
  length freq = length fft -> In m fft -> mask_eq freq fft m <> [].
Proof.
  revert freq. induction fft as [|x xs IH]; intros freq Hl Hin; [destruct Hin|].
  destruct freq as [|f fs]; [discriminate|]. simpl in *.
  destruct (Qeq_bool x m) eqn:E; [discriminate|].
  destruct Hin as [Hx|Hin].
  - subst x. rewrite Qeq_bool_refl in E. discriminate.
  - apply IH; [lia|exact Hin].
Qed.

Lemma fftfreq_length (n : nat) (d : Q) : length (fftfreq (Z.of_nat n) d) = n.
Proof. unfold fftfreq. rewrite length_map, length_seq. apply Nat2Z.id. Qed.

Lemma dominant_frequency_ok (fft : list Q) :
  fft <> [] -> exists f, dominant_frequency fft = Ok f /\ (0 <= f)%Q.
Proof.
  intro Hne. unfold dominant_frequency.
  destruct (amax_Q fft) as [m|e] eqn:Em.
  - simpl.
    pose proof (mask_eq_nonempty fft
                  (fftfreq (Z.of_nat (length fft)) (1 / inject_Z SAMPLE_RATE)) m
                  (fftfreq_length _ _) (amax_Q_In _ _ Em)) as Hm.
    destruct (mask_eq _ fft m) as [|f fs]; [contradiction|].
    exists (Qabs f). split; [reflexivity|apply Qabs_nonneg].
  - destruct fft; [contradiction|discriminate].
Qed.

(** ** The bins and bars of the spectrogram *)

Lemma skipn_cons_nth {A : Type} (l : list A) (i : nat) (d : A) :
  (i < length l)%nat -> skipn i l = nth i l d :: skipn (S i) l.
Proof.
  revert i. induction l as [|x l IH]; intros i H; simpl in H; [lia|].
  destruct i as [|i]; [reflexivity|].
  simpl. apply IH. lia.
Qed.

Lemma firstn_skipn_seq (l : list Q) (i n : nat) :
  (i + n <= length l)%nat ->
  firstn n (skipn i l) = map (fun j => nth j l 0%Q) (seq i n).
Proof.
  revert i. induction n as [|n IH]; intros i H; [reflexivity|].
  rewrite (skipn_cons_nth l i 0%Q) by lia.
  change (firstn (S n) (nth i l 0%Q :: skipn (S i) l))
    with (nth i l 0%Q :: firstn n (skipn (S i) l)).
  change (seq i (S n)) with (i :: seq (S i) n).
  rewrite map_cons. f_equal. apply IH. lia.
Qed.

Lemma bin_step_bound (len i : nat) :
  (i < 200)%nat ->
  let step := Z.to_nat (Z.of_nat len / 200) in
  step <> O -> (i + step <= len)%nat.
Proof.
  intros Hi step Hs.
  assert (H : 200 * (Z.of_nat len / 200) <= Z.of_nat len)
    by (apply Z.mul_div_le; lia).
  assert (0 <= Z.of_nat len / 200) by (apply Z.div_pos; lia).
  unfold step in *. lia.
Qed.

(** The slice of the code and the index range of the specification have the
    same mean, for every spectrum and every bin. *)
Lemma bin_mean_over (fft : list Q) (i : nat) :
  (i < 200)%nat ->
  let step := Z.to_nat (Z.of_nat (length fft) / 200) in
  mean (slice fft i (i + step)) = mean_over fft i step.
Proof.
  intros Hi step. unfold slice.
  replace (i + step - i)%nat with step by lia.
  destruct step as [|s] eqn:Es; [reflexivity|].
  rewrite firstn_skipn_seq.
  2:{ pose proof (bin_step_bound (length fft) i Hi) as Hb. cbv zeta in Hb.
      fold step in Hb. rewrite <- Es. apply Hb. lia. }
  unfold mean_over.
  remember (map (fun j => nth j fft 0%Q) (seq i (S s))) as l eqn:El.
  assert (Hlen : length l = S s) by (subst l; rewrite length_map, length_seq; reflexivity).
  destruct l as [|x l']; [discriminate|].
  unfold mean. rewrite Hlen. reflexivity.
Qed.

Lemma spectrogram_bins_length (fft : list Q) : length (spectrogram_bins fft) = 200%nat.
Proof. unfold spectrogram_bins. rewrite length_map, length_seq. reflexivity. Qed.

Lemma spectrogram_bins_nth (fft : list Q) (i : nat) :
  (i < 200)%nat ->
  nth_error (spectrogram_bins fft) i =
    Some (mean_over fft i (Z.to_nat (Z.of_nat (length fft) / 200))).
Proof.
  intro Hi. unfold spectrogram_bins.
  rewrite nth_error_map.
  rewrite (nth_error_nth' (seq 0 200) 0%nat) by (rewrite length_seq; exact Hi).
  rewrite seq_nth by exact Hi. simpl option_map. f_equal.
  apply (bin_mean_over fft i Hi).
Qed.

Lemma enumerate_nth {A : Type} (xs : list A) (n i : nat) :
  nth_error (enumerate n xs) i = option_map (fun x => ((n + i)%nat, x)) (nth_error xs i).
Proof.
  revert n i. induction xs as [|x xs IH]; intros n i.
  - destruct i; reflexivity.
  - destruct i as [|i]; simpl.
    + rewrite Nat.add_0_r. reflexivity.
    + rewrite IH. replace (S n + i)%nat with (n + S i)%nat by lia. reflexivity.
Qed.

Lemma enumerate_length {A : Type} (xs : list A) (n : nat) :
  length (enumerate n xs) = length xs.
Proof. revert n. induction xs as [|x xs IH]; intro n; simpl; [|rewrite IH]; reflexivity. Qed.

Lemma spectrogram_bar_matches (w h : Z) (i : nat) (bin : option Q) :
  bar_matches w h i bin (spectrogram_bar w h 200 i bin).
Proof.
  unfold bar_matches, spectrogram_bar.
  split; [reflexivity|]. split; [reflexivity|]. split; [reflexivity|].
  destruct bin as [m|]; simpl; [|exact I].
  split.
  - unfold SAMPLE_MAX. field.
  - ring.
Qed.

Lemma obind_Ok {A B : Type} (a : A) (k : A -> outcome B) : obind (Ok a) k = k a.
Proof. reflexivity. Qed.

Lemma rfft_absolute_ok (rfft_abs : list Z -> list Q) (data : list Z) :
  data <> [] -> rfft_absolute rfft_abs data = Ok (rfft_abs data).
Proof. destruct data; [contradiction|reflexivity]. Qed.

Lemma amax_Z_ok (data : list Z) : data <> [] -> exists m, amax_Z data = Ok m.
Proof. destruct data as [|x xs]; [contradiction|]. intros _. eexists. reflexivity. Qed.

(** C9: on every non-empty block (with its non-empty spectrum [fft]) the
    spectrogram builds exactly 200 bins, bin [i] being the mean of the
    magnitude spectrum over the indices [i, i + step) with
    [step = floor (len(fft) / 200)]; [generate] returns an image of 200 bars,
    bar [i] of height [(bin / SAMPLE_MAX / 10) * height] and ending at the
    bottom of the frame. *)
Theorem C9_spectrogram_bins_and_bars
  (rfft_abs : list Z -> list Q) (w h : Z) (data : list Z) :
  data <> [] -> rfft_abs data <> [] ->
  let fft := rfft_abs data in
  let step := Z.to_nat (Z.of_nat (length fft) / 200) in
  length (spectrogram_bins fft) = 200%nat /\
  (forall i, (i < 200)%nat ->
     nth_error (spectrogram_bins fft) i = Some (mean_over fft i step)) /\
  exists img,
    spectrogram_generate rfft_abs w h data = Ok img /\
    length (painted img) = 200%nat /\
    forall i, (i < 200)%nat ->
      exists p, nth_error (painted img) i = Some p /\
                bar_matches w h i (mean_over fft i step) p.
Proof.
  intros Hd Hf fft step.
  split; [apply spectrogram_bins_length|].
  split; [intros i Hi; apply spectrogram_bins_nth, Hi|].
  unfold spectrogram_generate.
  rewrite (rfft_absolute_ok rfft_abs data Hd), obind_Ok.
  destruct (dominant_frequency_ok (rfft_abs data) Hf) as [f [Ef _]]. rewrite Ef, obind_Ok.
  destruct (amax_Z_ok data Hd) as [m Em]. rewrite Em, obind_Ok.
  eexists. split; [reflexivity|]. unfold painted.
  split.
  - rewrite length_map, enumerate_length. apply spectrogram_bins_length.
  - intros i Hi. rewrite nth_error_map, enumerate_nth.
    rewrite (spectrogram_bins_nth (rfft_abs data) i Hi). unfold option_map.
    eexists. split; [reflexivity|].
    rewrite spectrogram_bins_length. apply spectrogram_bar_matches.
Qed.

(** A silent block of [BUFFER_SIZE] samples on the default 800 x 800 widget. *)
Lemma C9_spectrogram_witness :
  exists img,
    spectrogram_generate silent_spectrum 800 800 (repeat 0 (Z.to_nat BUFFER_SIZE)) = Ok img /\
    length (painted img) = 200%nat.
Proof.
  destruct (C9_spectrogram_bins_and_bars silent_spectrum 800 800
              (repeat 0 (Z.to_nat BUFFER_SIZE)))
    as [_ [_ [img [H1 [H2 _]]]]].
  - vm_compute. discriminate.
  - vm_compute. discriminate.
  - exists img. split; assumption.
Defined.

(** ** Invariants of the reachable states of a [CustomVisualizer] *)

Lemma stable_ret {S A : Type} (I : S -> Prop) (a : A) : stable I (ret a).
Proof. intros s H. exact H. Qed.

Lemma stable_get {S : Type} (I : S -> Prop) : stable I get.
Proof. intros s H. exact H. Qed.

Lemma stable_lift {S A : Type} (I : S -> Prop) (c : outcome A) : stable I (lift c).
Proof. intros s H. exact H. Qed.

Lemma stable_modify {S : Type} (I : S -> Prop) (f : S -> S) :
  (forall s, I s -> I (f s)) -> stable I (modify f).
Proof. intros Hf s H. apply Hf, H. Qed.

Lemma stable_bind {S A B : Type} (I : S -> Prop) (c : M S A) (k : A -> M S B) :
  stable I c -> (forall a, stable I (k a)) -> stable I (bind c k).
Proof.
  intros Hc Hk s H. unfold bind.
  specialize (Hc s H). destruct (c s) as [[a|e] s']; simpl in *.
  - apply Hk, Hc.
  - exact Hc.
Qed.

(** Reading [self] first: what follows may use that the state read satisfies
    the property. *)
Lemma stable_get_bind {S B : Type} (I : S -> Prop) (k : S -> M S B) :
  (forall s0, I s0 -> stable I (k s0)) -> stable I (bind get k).
Proof. intros Hk s H. unfold bind, get. apply (Hk s H s H). Qed.

Create HintDb stable.
#[local] Hint Resolve stable_ret stable_get stable_lift : stable.

Lemma getDecimalRange_fields (val : num) (isAmpl : bool) (s : CustomVisualizer) :
  let s' := snd (getDecimalRange val isAmpl s) in
  amplLearningRate s' = amplLearningRate s /\
  freqLearningRate s' = freqLearningRate s /\
  max_points s' = max_points s /\
  use_rolling s' = use_rolling s /\
  display_stats s' = display_stats s /\
  rollingAmpl s' = rollingAmpl s /\
  rollingFreq s' = rollingFreq s /\
  width s' = width s /\
  height s' = height s.
Proof.
  unfold getDecimalRange, bind, get, lift, modify, ret.
  destruct isAmpl; simpl.
  - destruct (div (sub val (fst (ampl_range s))) (snd (ampl_range s))) as [r|e]; simpl;
      [|repeat split].
    destruct (gtb r 1); [repeat split|]. destruct (ltb r 0); repeat split.
  - destruct (div (sub val (fst (freq_range s))) (snd (freq_range s))) as [r|e]; simpl;
      [|repeat split].
    destruct (gtb r 1); [repeat split|]. destruct (ltb r 0); repeat split.
Qed.

Lemma getDecimalRange_stable (val : num) (isAmpl : bool) :
  stable visualizer_inv (getDecimalRange val isAmpl).
Proof.
  intros s [Hr [Hp Hm]].
  destruct (getDecimalRange_fields val isAmpl s) as [Ea [Ef [Em _]]].
  destruct (getDecimalRange_pos val isAmpl s Hp) as [r [_ Hp']].
  unfold visualizer_inv, rates_equal. rewrite Ea, Ef, Em. auto.
Qed.

Lemma updateMaximums_stable : stable visualizer_inv updateMaximums.
Proof.
  intros s [Hr [Hp Hm]]. split; [exact Hr|]. split; [|exact Hm].
  apply updateMaximums_pos, Hp.
Qed.

Lemma updateRolling_stable (a f : num) : stable visualizer_inv (updateRolling a f).
Proof. intros s H. exact H. Qed.

Lemma getColor_stable (val : num) : stable visualizer_inv (getColor val).
Proof.
  unfold getColor. apply stable_bind; [apply getDecimalRange_stable|].
  intro a. apply stable_ret.
Qed.

Lemma getPoints_stable (val : num) : stable visualizer_inv (getPoints val).
Proof.
  unfold getPoints. apply stable_bind; [apply getDecimalRange_stable|].
  intro a. apply stable_bind; [apply stable_get|]. intro s. apply stable_ret.
Qed.

Lemma generate_stable (rfft_abs : list Z -> list Q) (str_float : Q -> string)
      (data : list Z) :
  stable visualizer_inv (generate rfft_abs str_float data).
Proof.
  unfold generate.
  apply stable_bind; [apply stable_lift|]. intro fft.
  apply stable_bind; [apply stable_lift|]. intro max_freq.
  apply stable_bind; [apply stable_lift|]. intro max_amplitude.
  apply stable_bind; [apply updateRolling_stable|]. intros _.
  apply stable_bind; [apply updateMaximums_stable|]. intros _.
  apply stable_bind; [apply stable_get|]. intro self.
  destruct (use_rolling self).
  - apply stable_bind; [apply getColor_stable|]. intro b.
    apply stable_bind; [apply getPoints_stable|]. intro star.
    apply stable_bind; [apply stable_get|]. intro self'.
    apply stable_bind; [destruct (display_stats self'); auto with stable|].
    intro stats. apply stable_ret.
  - apply stable_bind; [apply getColor_stable|]. intro b.
    apply stable_bind; [apply getPoints_stable|]. intro star.
    apply stable_bind; [apply stable_get|]. intro self'.
    apply stable_bind; [destruct (display_stats self'); auto with stable|].
    intro stats. apply stable_ret.
Qed.

Lemma keyPressEvent_stable (key : Z) : stable visualizer_inv (keyPressEvent key).
Proof.
  unfold keyPressEvent. apply stable_get_bind. intros s0 [Hr0 _].
  destruct (key =? Key_S); [apply stable_modify; intros s H; exact H|].
  destruct (key =? Key_R); [apply stable_modify; intros s H; exact H|].
  destruct (key =? Key_Equal).
  { destruct (ltb (amplLearningRate s0) (PFloat (99 # 100))); [|apply stable_ret].
    intros s [_ [Hp Hm]]. repeat split; try apply Hp; try exact Hm.
    unfold rates_equal. simpl. rewrite Hr0. reflexivity. }
  destruct (key =? Key_Minus).
  { destruct (gtb (amplLearningRate s0) (PFloat (1 # 100))); [|apply stable_ret].
    intros s [_ [Hp Hm]]. repeat split; try apply Hp; try exact Hm.
    unfold rates_equal. simpl. rewrite Hr0. reflexivity. }
  destruct (key =? Key_Escape); [intros s H; exact H|].
  destruct (lookup_key key color_bindings); [apply stable_modify; intros s H; exact H|].
  destruct (Key_0 =? key); [apply stable_modify; intros s H; exact H|].
  destruct ((Key_1 <=? key) && (key <=? Key_9));
    [apply stable_modify; intros s H; exact H|apply stable_ret].
Qed.

Lemma reachable_inv (s : CustomVisualizer) : reachable s -> visualizer_inv s.
Proof.
  induction 1 as [cols|key s _ IH|rfft_abs str_float data s _ IH|w h s _ IH].
  - split; [reflexivity|]. split; [apply init_pos_widths|reflexivity].
  - apply keyPressEvent_stable, IH.
  - apply generate_stable, IH.
  - exact IH.
Qed.

(** C10: in every reachable state of the radial-star visualizer the
    amplitude learning rate and the frequency learning rate are the same
    number. *)
Theorem C10_learning_rates_equal (s : CustomVisualizer) :
  reachable s -> amplLearningRate s = freqLearningRate s.
Proof. intro H. apply (reachable_inv s H). Qed.

(** Three presses of [=], a frame, and a press of [-]. *)
Lemma C10_learning_rates_witness :
  let s1 := snd (keyPressEvent Key_Equal (CustomVisualizer_init 1)) in
  let s2 := snd (keyPressEvent Key_Equal s1) in
  let s3 := snd (keyPressEvent Key_Equal s2) in
  let s4 := snd (generate silent_spectrum (fun _ => "0.0"%string) [0] s3) in
  let s5 := snd (keyPressEvent Key_Minus s4) in
  amplLearningRate s5 = freqLearningRate s5.
Proof.
  cbv zeta. apply C10_learning_rates_equal.
  apply reach_key, reach_generate, reach_key, reach_key, reach_key, reach_init.
Defined.

(** ** [getTrimString] on an integer *)

Lemma index_no_dot (s : string) : no_dot s -> String.index 0 "." s = None.
Proof.
  induction s as [|c s IH]; intro H; [reflexivity|].
  destruct H as [Hc Hs].
  assert (E : String.index 0 "." (String c s) =
              if (if ascii_dec "." c then prefix "" s else false)
              then Some O
              else match String.index 0 "." s with
                   | Some n => Some (S n)
                   | None => None
                   end) by reflexivity.
  rewrite E, (IH Hs).
  destruct (ascii_dec "." c) as [D|_]; [symmetry in D; contradiction|reflexivity].
Qed.

Lemma digit_not_dot (n : Z) : ascii_of_nat (48 + Z.to_nat (n mod 10)) <> "."%char.
Proof.
  pose proof (Z.mod_pos_bound n 10 ltac:(lia)) as B.
  assert (Hk : (Z.to_nat (n mod 10) < 10)%nat) by lia.
  destruct (Z.to_nat (n mod 10)) as [|k]; [discriminate|].
  do 9 (destruct k as [|k]; [discriminate|]). lia.
Qed.

Lemma digits_no_dot (fuel : nat) (n : Z) (acc : string) :
  no_dot acc -> no_dot (digits fuel n acc).
Proof.
  revert n acc. induction fuel as [|fuel IH]; intros n acc H; simpl; [exact H|].
  assert (Hd : no_dot (String (ascii_of_nat (48 + Z.to_nat (n mod 10))) acc))
    by (split; [apply digit_not_dot|exact H]).
  destruct (n <? 10); [exact Hd|apply IH, Hd].
Qed.

Lemma str_int_no_dot (z : Z) : no_dot (str_int z).
Proof.
  unfold str_int. destruct (z <? 0).
  - split; [discriminate|]. apply digits_no_dot. exact I.
  - apply digits_no_dot. exact I.
Qed.

(** The string of an integer has no decimal point: [getTrimString] raises on
    every integer, whatever the rendering of floats. *)
Lemma getTrimString_int (str_float : Q -> string) (z : Z) :
  getTrimString str_float (PInt z) = Raise (ValueError "substring not found").
Proof.
  unfold getTrimString. simpl str. rewrite (index_no_dot _ (str_int_no_dot z)). reflexivity.
Qed.

(** ** Running [generate] *)

Lemma bind_run {S A B : Type} (c : M S A) (k : A -> M S B) (s s' : S) (a : A) :
  c s = (Ok a, s') -> bind c k s = k a s'.
Proof. intro H. unfold bind. rewrite H. reflexivity. Qed.

Lemma bind_raise {S A B : Type} (c : M S A) (k : A -> M S B) (s s' : S) (e : exn) :
  c s = (Raise e, s') -> bind c k s = (Raise e, s').
Proof. intro H. unfold bind. rewrite H. reflexivity. Qed.

Lemma getColor_run (val : num) (s : CustomVisualizer) :
  pos_widths s ->
  exists b, getColor val s = (Ok b, snd (getDecimalRange val false s)).
Proof.
  intro Hp. destruct (getDecimalRange_pos val false s Hp) as [r [Hr _]].
  exists (color_of_ratio r). unfold getColor.
  rewrite (bind_run _ _ s (snd (getDecimalRange val false s)) r).
  - reflexivity.
  - destruct (getDecimalRange val false s) as [o s']. simpl in Hr. subst o. reflexivity.
Qed.

Lemma getPoints_run (val : num) (s : CustomVisualizer) :
  pos_widths s ->
  exists star, getPoints val s = (Ok star, snd (getDecimalRange val true s)).
Proof.
  intro Hp. destruct (getDecimalRange_pos val true s Hp) as [r [Hr _]].
  eexists. unfold getPoints.
  rewrite (bind_run _ _ s (snd (getDecimalRange val true s)) r).
  - reflexivity.
  - destruct (getDecimalRange val true s) as [o s']. simpl in Hr. subst o. reflexivity.
Qed.

(** C3, on the code: with the stats overlay on and rolling mode off,
    [CustomVisualizer.generate] raises [ValueError] on every non-empty block:
    the peak amplitude is an integer, its string has no ["."] and
    [getTrimString] fails on it. *)
Theorem C3_generate_raises_with_stats
  (rfft_abs : list Z -> list Q) (str_float : Q -> string)
  (data : list Z) (self : CustomVisualizer) :
  data <> [] -> rfft_abs data <> [] ->
  pos_widths self ->
  display_stats self = true -> use_rolling self = false ->
  fst (generate rfft_abs str_float data self) = Raise (ValueError "substring not found").
Proof.
  intros Hd Hf Hp Hstats Hroll.
  destruct (dominant_frequency_ok (rfft_abs data) Hf) as [f [Ef _]].
  destruct (amax_Z_ok data Hd) as [m Em].
  unfold generate.
  rewrite (bind_run _ _ self self (rfft_abs data))
    by (unfold lift; rewrite (rfft_absolute_ok rfft_abs data Hd); reflexivity).
  rewrite (bind_run _ _ self self f) by (unfold lift; rewrite Ef; reflexivity).
  rewrite (bind_run _ _ self self m) by (unfold lift; rewrite Em; reflexivity).
  set (s1 := snd (updateRolling (PInt m) (PFloat f) self)).
  rewrite (bind_run _ _ self s1 tt) by reflexivity.
  set (s2 := snd (updateMaximums s1)).
  rewrite (bind_run _ _ s1 s2 tt) by reflexivity.
  assert (Hp2 : pos_widths s2) by (apply updateMaximums_pos; exact Hp).
  rewrite (bind_run _ _ s2 s2 s2) by reflexivity.
  change (use_rolling s2) with (use_rolling self). rewrite Hroll.
  destruct (getColor_run (PFloat f) s2 Hp2) as [b Eb].
  set (s3 := snd (getDecimalRange (PFloat f) false s2)) in *.
  rewrite (bind_run _ _ s2 s3 b Eb).
  assert (Hp3 : pos_widths s3).
  { destruct (getDecimalRange_pos (PFloat f) false s2 Hp2) as [r [_ H]]. exact H. }
  destruct (getPoints_run (PInt m) s3 Hp3) as [star Es].
  set (s4 := snd (getDecimalRange (PInt m) true s3)) in *.
  rewrite (bind_run _ _ s3 s4 star Es).
  rewrite (bind_run _ _ s4 s4 s4) by reflexivity.
  assert (Hs4 : display_stats s4 = true).
  { destruct (getDecimalRange_fields (PInt m) true s3) as [_ [_ [_ [_ [E4 _]]]]].
    destruct (getDecimalRange_fields (PFloat f) false s2) as [_ [_ [_ [_ [E3 _]]]]].
    fold s4 in E4. fold s3 in E3. rewrite E4, E3. exact Hstats. }
  rewrite Hs4.
  rewrite (bind_raise _ _ s4 s4 (ValueError "substring not found")); [reflexivity|].
  unfold lift, drawStats. rewrite getTrimString_int. reflexivity.
Qed.

(** A new visualizer, the key [S] pressed once, then the first block. *)
Lemma C3_generate_raises_witness :
  fst (generate one_sample_spectrum (fun _ => "0.0"%string) [0]
         (snd (keyPressEvent Key_S (CustomVisualizer_init 1))))
  = Raise (ValueError "substring not found").
Proof.
  apply C3_generate_raises_with_stats.
  - discriminate.
  - discriminate.
  - split; reflexivity.
  - reflexivity.
  - reflexivity.
Defined.

(** ** The frequency axis *)

(** [np.amax] of a spectrum whose first maximum is [m]: it is [m] itself. *)
Lemma fold_Qmax_below (xs : list Q) (a m : Q) :
  (a < m)%Q -> (forall x, In x xs -> (x < m)%Q) -> (fold_left Qmax xs a < m)%Q.
Proof.
  revert a. induction xs as [|x xs IH]; intros a Ha H; simpl; [exact Ha|].
  apply IH.
  - unfold Qmax. destruct (Qltb a x); [apply H; left; reflexivity|exact Ha].
  - intros y Hy. apply H. right. exact Hy.
Qed.

Lemma fold_Qmax_stays (xs : list Q) (m : Q) :
  (forall x, In x xs -> (x <= m)%Q) -> fold_left Qmax xs m = m.
Proof.
  induction xs as [|x xs IH]; intro H; simpl; [reflexivity|].
  assert (E : Qmax m x = m).
  { unfold Qmax. destruct (Qltb m x) eqn:L; [|reflexivity].
    apply Qltb_true in L. specialize (H x (or_introl eq_refl)).
    exfalso. exact (Qlt_not_le _ _ L H). }
  rewrite E. apply IH. intros y Hy. apply H. right. exact Hy.
Qed.

Lemma amax_Q_first_max (pre post : list Q) (m : Q) :
  (forall x, In x pre -> (x < m)%Q) ->
  (forall x, In x post -> (x <= m)%Q) ->
  amax_Q (pre ++ m :: post) = Ok m.
Proof.
  intros Hpre Hpost. destruct pre as [|a pre].
  - simpl. rewrite fold_Qmax_stays by exact Hpost. reflexivity.
  - change ((a :: pre) ++ m :: post) with (a :: (pre ++ m :: post)).
    unfold amax_Q. rewrite fold_left_app. cbn [fold_left].
    assert (L : (fold_left Qmax pre a < m)%Q).
    { apply fold_Qmax_below; [apply Hpre; left; reflexivity|].
      intros x Hx. apply Hpre. right. exact Hx. }
    assert (E : Qmax (fold_left Qmax pre a) m = m).
    { change (Qmax (fold_left Qmax pre a) m)
        with (if Qltb (fold_left Qmax pre a) m then m else fold_left Qmax pre a).
      apply Qltb_true in L. rewrite L. reflexivity. }
    rewrite E, fold_Qmax_stays by exact Hpost. reflexivity.
Qed.

(** The mask keeps, first, the frequency at the position of the first
    maximum. *)
Lemma mask_eq_first_max (g : nat -> Q) (pre post : list Q) (m : Q) (k len : nat) :
  (forall x, In x pre -> (x < m)%Q) ->
  (length pre < len)%nat ->
  exists rest,
    mask_eq (map g (seq k len)) (pre ++ m :: post) m = g (k + length pre)%nat :: rest.
Proof.
  revert k len. induction pre as [|a pre IH]; intros k len Hpre Hlen.
  - destruct len as [|len]; [simpl in Hlen; lia|].
    simpl. rewrite Qeq_bool_refl, Nat.add_0_r. eexists. reflexivity.
  - destruct len as [|len]; [simpl in Hlen; lia|].
    simpl. assert (E : Qeq_bool a m = false).
    { destruct (Qeq_bool a m) eqn:E; [|reflexivity].
      apply Qeq_bool_iff in E. specialize (Hpre a (or_introl eq_refl)).
      rewrite E in Hpre. exfalso. exact (Qlt_irrefl _ Hpre). }
    rewrite E.
    destruct (IH (S k) len) as [rest Hr].
    + intros x Hx. apply Hpre. right. exact Hx.
    + simpl in Hlen. lia.
    + exists rest. rewrite Hr. f_equal. f_equal. simpl. lia.
Qed.

(** The frequency the code reports: the entry of
    [np.fft.fftfreq(len(fft), 1 / SAMPLE_RATE)] at the first maximum of the
    spectrum, in absolute value. *)
Lemma dominant_frequency_first_max (pre post : list Q) (m : Q) :
  (forall x, In x pre -> (x < m)%Q) ->
  (forall x, In x post -> (x <= m)%Q) ->
  dominant_frequency (pre ++ m :: post) =
    Ok (Qabs (fftfreq_at (Z.of_nat (length (pre ++ m :: post)))
                         (1 / inject_Z SAMPLE_RATE)
                         (Z.of_nat (length pre)))).
Proof.
  intros Hpre Hpost. unfold dominant_frequency.
  rewrite (amax_Q_first_max pre post m Hpre Hpost), obind_Ok.
  unfold fftfreq. rewrite Nat2Z.id.
  destruct (mask_eq_first_max
              (fun i => fftfreq_at (Z.of_nat (length (pre ++ m :: post)))
                                   (1 / inject_Z SAMPLE_RATE) (Z.of_nat i))
              pre post m 0 (length (pre ++ m :: post)) Hpre) as [rest Hr].
  - rewrite length_app. simpl. lia.
  - rewrite Hr. reflexivity.
Qed.

(** In the lower half of the axis, bin [i] of a spectrum of [n] bins stands
    at [i * SAMPLE_RATE / n]. *)
Lemma fftfreq_at_low (n i : Z) :
  0 < n -> 0 <= i < (n - 1) / 2 + 1 ->
  (fftfreq_at n (1 / inject_Z SAMPLE_RATE) i
   == inject_Z i * inject_Z SAMPLE_RATE / inject_Z n)%Q.
Proof.
  intros Hn Hi. unfold fftfreq_at.
  destruct (i <? (n - 1) / 2 + 1) eqn:E; [|apply Z.ltb_ge in E; lia].
  unfold SAMPLE_RATE. field.
  intro H. assert (K : (inject_Z n == inject_Z 0)%Q) by exact H.
  rewrite inject_Z_injective in K. lia.
Qed.

(** C2, on the code: when the first maximum of the spectrum is at bin [i] of
    the lower half of the axis, the frequency [generate] works with is
    [i * SAMPLE_RATE / len(fft)]: the axis is spaced by the length of the
    spectrum ([N / 2 + 1] for a block of [N] samples), not by [N]. *)
Theorem C2_reported_frequency_axis (pre post : list Q) (m : Q) :
  (forall x, In x pre -> (x < m)%Q) ->
  (forall x, In x post -> (x <= m)%Q) ->
  Z.of_nat (length pre) < (Z.of_nat (length (pre ++ m :: post)) - 1) / 2 + 1 ->
  exists f,
    dominant_frequency (pre ++ m :: post) = Ok f /\
    (f == inject_Z (Z.of_nat (length pre)) * inject_Z SAMPLE_RATE
          / inject_Z (Z.of_nat (length (pre ++ m :: post))))%Q.
Proof.
  intros Hpre Hpost Hlow.
  rewrite (dominant_frequency_first_max pre post m Hpre Hpost).
  eexists. split; [reflexivity|].
  rewrite fftfreq_at_low.
  - apply Qabs_pos. unfold Qdiv.
    apply Qmult_le_0_compat.
    + apply Qmult_le_0_compat.
      * change 0%Q with (inject_Z 0). rewrite <- Zle_Qle. lia.
      * discriminate.
    + apply Qinv_le_0_compat. change 0%Q with (inject_Z 0). rewrite <- Zle_Qle. lia.
  - rewrite length_app. simpl. lia.
  - lia.
Qed.

(** A spectrum of 2501 bins (a block of 5000 samples) whose only peak is bin
    50, where a sinusoid of 440 Hz falls ([50 * 44100 / 5000 = 441]): the
    code reports [50 * 44100 / 2501], about 881.6 Hz, which is not the 441 Hz
    of the axis [i * sampleRate / N] and is further from 440 Hz than one bin
    width. *)
Lemma C2_reported_frequency_witness :
  exists f,
    dominant_frequency (repeat 0%Q 50 ++ 1%Q :: repeat 0%Q 2450) = Ok f /\
    (f == 2205000 # 2501)%Q /\
    ~ (f == 50 * inject_Z SAMPLE_RATE / inject_Z BUFFER_SIZE)%Q /\
    (inject_Z SAMPLE_RATE / inject_Z BUFFER_SIZE < Qabs (f - 440))%Q.
Proof.
  destruct (C2_reported_frequency_axis (repeat 0%Q 50) (repeat 0%Q 2450) 1%Q)
    as [f [E Hf]].
  - intros x Hx. apply repeat_spec in Hx. subst x. reflexivity.
  - intros x Hx. apply repeat_spec in Hx. subst x. discriminate.
  - rewrite length_app, !repeat_length. simpl. reflexivity.
  - exists f. split; [exact E|].
    assert (Hv : (f == 2205000 # 2501)%Q).
    { rewrite Hf, length_app, !repeat_length. reflexivity. }
    split; [exact Hv|]. rewrite Hv. split.
    + discriminate.
    + reflexivity.
Defined.

(** ** The driver loop *)

(** C1, on the code: on a tick with a sample block, when the frame is
    generated and the widget is visible, [refresh] sets the pixmap, computes
    [interval = update_interval - 1000 * (clock2 - clock1)] and then passes
    [update_interval] itself to [QTimer.singleShot]: the delay of the next
    tick does not depend on the processing time. *)
Theorem C1_refresh_schedules_update_interval
  (update_interval : Z) (generate_frame : list Z -> outcome QImage)
  (block : list Z) (img : QImage) (clock1 clock2 : Q) :
  generate_frame block = Ok img ->
  exists tk,
    refresh update_interval generate_frame (Some block) clock1 clock2 true = Ok tk /\
    setPixmap tk = Some img /\
    (to_Q (interval tk) == inject_Z update_interval - 1000 * (clock2 - clock1))%Q /\
    singleShot tk = Some update_interval.
Proof.
  intro H. unfold refresh. rewrite H. simpl.
  eexists. split; [reflexivity|]. simpl. split; [reflexivity|].
  split; [|reflexivity]. ring.
Qed.

(** The default interval of 33 ms, the spectrogram of a silent block, and
    10 ms between the two clock readings: the next tick is scheduled after
    33 ms, where the specification asks for 23 ms. *)
Lemma C1_refresh_witness :
  exists tk,
    refresh default_update_interval (spectrogram_generate silent_spectrum 800 800)
            (Some [0; 0]) 0 (1 # 100) true = Ok tk /\
    singleShot tk = Some 33 /\
    (to_Q (interval tk) == 23)%Q /\
    (delay_of_specification default_update_interval (1000 * ((1 # 100) - 0)) == 23)%Q.
Proof.
  destruct (C1_refresh_schedules_update_interval default_update_interval
              (spectrogram_generate silent_spectrum 800 800) [0; 0]
              (mkQImage 800 800
                 (map (fun '(i, bin) => spectrogram_bar 800 800 200 i bin)
                      (enumerate 0 (spectrogram_bins (silent_spectrum [0; 0])))))
              0 (1 # 100) eq_refl)
    as [tk [E [_ [Hi Hs]]]].
  exists tk. split; [exact E|]. split; [exact Hs|]. split.
  - rewrite Hi. reflexivity.
  - reflexivity.
Defined.

(** ** Where [generate] does return *)

(** Without the stats overlay, [CustomVisualizer.generate] returns an image
    on every non-empty block: the star polygon alone, on a frame of the size
    of the widget. *)
Lemma generate_ok_without_stats
  (rfft_abs : list Z -> list Q) (str_float : Q -> string)
  (data : list Z) (self : CustomVisualizer) :
  data <> [] -> rfft_abs data <> [] ->
  pos_widths self ->
  display_stats self = false ->
  exists star b,
    fst (generate rfft_abs str_float data self)
      = Ok (mkQImage (width self) (height self) [drawPolygon star b]).
Proof.
  intros Hd Hf Hp Hstats.
  destruct (dominant_frequency_ok (rfft_abs data) Hf) as [f [Ef _]].
  destruct (amax_Z_ok data Hd) as [m Em].
  unfold generate.
  rewrite (bind_run _ _ self self (rfft_abs data))
    by (unfold lift; rewrite (rfft_absolute_ok rfft_abs data Hd); reflexivity).
  rewrite (bind_run _ _ self self f) by (unfold lift; rewrite Ef; reflexivity).
  rewrite (bind_run _ _ self self m) by (unfold lift; rewrite Em; reflexivity).
  set (s1 := snd (updateRolling (PInt m) (PFloat f) self)).
  rewrite (bind_run _ _ self s1 tt) by reflexivity.
  set (s2 := snd (updateMaximums s1)).
  rewrite (bind_run _ _ s1 s2 tt) by reflexivity.
  assert (Hp2 : pos_widths s2) by (apply updateMaximums_pos; exact Hp).
  rewrite (bind_run _ _ s2 s2 s2) by reflexivity.
  set (af := if use_rolling s2
             then (rollingAmpl s2, rollingFreq s2)
             else (PInt m, PFloat f)).
  destruct af as [ampl freq].
  destruct (getColor_run freq s2 Hp2) as [b Eb].
  set (s3 := snd (getDecimalRange freq false s2)) in *.
  rewrite (bind_run _ _ s2 s3 b Eb).
  assert (Hp3 : pos_widths s3).
  { destruct (getDecimalRange_pos freq false s2 Hp2) as [r [_ H]]. exact H. }
  destruct (getPoints_run ampl s3 Hp3) as [star Es].
  set (s4 := snd (getDecimalRange ampl true s3)) in *.
  rewrite (bind_run _ _ s3 s4 star Es).
  rewrite (bind_run _ _ s4 s4 s4) by reflexivity.
  assert (Hs4 : display_stats s4 = false).
  { destruct (getDecimalRange_fields ampl true s3) as [_ [_ [_ [_ [E4 _]]]]].
    destruct (getDecimalRange_fields freq false s2) as [_ [_ [_ [_ [E3 _]]]]].
    fold s4 in E4. fold s3 in E3. rewrite E4, E3. exact Hstats. }
  rewrite Hs4.
  assert (Hw : width s4 = width self /\ height s4 = height self).
  { destruct (getDecimalRange_fields ampl true s3) as [_ [_ [_ [_ [_ [_ [_ [W4 H4]]]]]]]].
    destruct (getDecimalRange_fields freq false s2) as [_ [_ [_ [_ [_ [_ [_ [W3 H3]]]]]]]].
    fold s4 in W4, H4. fold s3 in W3, H3. rewrite W4, H4, W3, H3. split; reflexivity. }
  destruct Hw as [Hw Hh].
  exists star, b. unfold bind, ret. simpl. rewrite Hw, Hh. reflexivity.
Qed.

(** The first block of a new visualizer. *)
Lemma generate_ok_without_stats_witness :
  exists star b,
    fst (generate one_sample_spectrum (fun _ => "0.0"%string) [5]
                  (CustomVisualizer_init 1))
      = Ok (mkQImage 800 800 [drawPolygon star b]).
Proof.
  apply (generate_ok_without_stats one_sample_spectrum (fun _ => "0.0"%string) [5]
           (CustomVisualizer_init 1)).
  - discriminate.
  - discriminate.
  - split; reflexivity.
  - reflexivity.
Defined.

(** In rolling mode the amplitude and the frequency shown are floats, but the
    lower bound of a range is still the integer 1000 of [__init__] as long as
    the values stay above it: on a loud first block the overlay fails on
    [getTrimString(self.ampl_range[0])]. *)
Example generate_rolling_loud_block_raises :
  let self := snd (keyPressEvent Key_R (snd (keyPressEvent Key_S (CustomVisualizer_init 1)))) in
  use_rolling self = true /\
  display_stats self = true /\
  fst (generate one_sample_spectrum (fun _ => "0.0"%string) [20000] self)
    = Raise (ValueError "substring not found").
Proof. repeat split. Qed.



(** * Further properties of the module *)

(** ** [getTrimString] *)

(** On every integer, whatever the rendering of floats, [getTrimString]
    raises [ValueError]: the string of an integer has no decimal point for
    [str.index] to find. *)
Theorem getTrimString_raises_on_integers (str_float : Q -> string) (z : Z) :
  getTrimString str_float (PInt z) = Raise (ValueError "substring not found") /\
  String.index 0 "." (str str_float (PInt z)) = None.
Proof.
  split; [apply getTrimString_int|].
  apply index_no_dot, str_int_no_dot.
Qed.

Lemma index_dot_after (ip rest : string) :
  no_dot ip ->
  String.index 0 "." (ip ++ String "." rest) = Some (String.length ip).
Proof.
  induction ip as [|c ip IH]; intro H.
  - destruct rest; reflexivity.
  - destruct H as [Hc Hs].
    assert (E : String.index 0 "." (String c ip ++ String "." rest) =
                if (if ascii_dec "." c then prefix "" (ip ++ String "." rest) else false)
                then Some O
                else match String.index 0 "." (ip ++ String "." rest) with
                     | Some n => Some (S n)
                     | None => None
                     end) by reflexivity.
    rewrite E, (IH Hs).
    destruct (ascii_dec "." c) as [D|_]; [symmetry in D; contradiction|reflexivity].
Qed.

Lemma substring_one_decimal (ip : string) (c : ascii) (rest : string) :
  String.substring 0 (String.length ip + 2) (ip ++ String "." (String c rest))
  = (ip ++ String "." (String c ""))%string.
Proof.
  induction ip as [|a ip IH].
  - simpl. destruct rest; reflexivity.
  - simpl. f_equal. exact IH.
Qed.

(** When the string of a float is an integer part without a point, a point
    and at least one more character, [getTrimString] returns the integer
    part, the point and that one character: one decimal is kept. *)
Theorem getTrimString_keeps_one_decimal
  (str_float : Q -> string) (q : Q) (ip : string) (c : ascii) (rest : string) :
  no_dot ip ->
  str_float q = (ip ++ String "." (String c rest))%string ->
  getTrimString str_float (PFloat q) = Ok (ip ++ String "." (String c ""))%string.
Proof.
  intros Hip Hs. unfold getTrimString. unfold str. rewrite Hs.
  rewrite (index_dot_after ip (String c rest) Hip).
  rewrite substring_one_decimal. reflexivity.
Qed.

(** The string ["441.632"] is trimmed to ["441.6"]. *)
Lemma getTrimString_keeps_one_decimal_witness :
  getTrimString (fun _ => "441.632"%string) (PFloat (441632 # 1000)) = Ok "441.6"%string.
Proof.
  apply (getTrimString_keeps_one_decimal (fun _ => "441.632"%string) (441632 # 1000)
           "441"%string "6"%char "32"%string).
  - repeat split; discriminate.
  - reflexivity.
Defined.

(** ** The dominant frequency *)





(** When the first bin attains the maximum of the spectrum (silence, where
    every bin is zero, or any tie with the first bin), the mask
    [fft == np.amax(fft)] starts at bin 0 and the frequency is 0 Hz. *)
Theorem dominant_frequency_first_bin_is_zero (m : Q) (post : list Q) :
  (forall x, In x post -> (x <= m)%Q) ->
  exists f, dominant_frequency (m :: post) = Ok f /\ (f == 0)%Q.
Proof.
  intro Hpost.
  pose proof (dominant_frequency_first_max [] post m) as H.
  simpl app in H. rewrite H by (try exact Hpost; intros x []).
  eexists. split; [reflexivity|].
  unfold fftfreq_at.
  assert (E : (Z.of_nat (@length Q []) <? (Z.of_nat (length (m :: post)) - 1) / 2 + 1) = true).
  { apply Z.ltb_lt. simpl length.
    assert (0 <= (Z.of_nat (S (length post)) - 1) / 2) by (apply Z.div_pos; lia).
    lia. }
  rewrite E. simpl length. change (inject_Z (Z.of_nat 0)) with 0%Q.
  rewrite Qmult_0_l. reflexivity.
Qed.

(** The spectrum of a silent block of [BUFFER_SIZE] samples. *)
Lemma dominant_frequency_first_bin_witness :
  exists f, dominant_frequency (0%Q :: repeat 0%Q 2500) = Ok f /\ (f == 0)%Q.
Proof.
  apply (dominant_frequency_first_bin_is_zero 0%Q (repeat 0%Q 2500)).
  intros x Hx. apply repeat_spec in Hx. subst x. discriminate.
Defined.

(** ** More on the adaptive ranges *)

Lemma div_same (a : num) :
  (0 < to_Q a)%Q -> exists r, div a a = Ok r /\ (to_Q r == 1)%Q.
Proof.
  intro H. destruct a as [x|q].
  - assert (Hx : 0 < x) by (simpl in H; rewrite Zlt_Qlt; exact H).
    rewrite div_int by lia. eexists. split; [reflexivity|].
    rewrite Z.div_same by lia. reflexivity.
  - simpl in H. rewrite div_float by (intro E; rewrite E in H; exact (Qlt_irrefl _ H)).
    eexists. split; [reflexivity|]. simpl. field.
    intro E. rewrite E in H. exact (Qlt_irrefl _ H).
Qed.

Lemma div_of_zero (a b : num) :
  (to_Q a == 0)%Q -> (0 < to_Q b)%Q -> exists r, div a b = Ok r /\ (to_Q r == 0)%Q.
Proof.
  intros Ha Hb.
  assert (Hb0 : ~ (to_Q b == 0)%Q) by (intro E; rewrite E in Hb; exact (Qlt_irrefl _ Hb)).
  destruct a as [x|p], b as [y|q].
  - assert (Hx : x = 0).
    { simpl in Ha. change 0%Q with (inject_Z 0) in Ha.
      rewrite inject_Z_injective in Ha. exact Ha. }
    assert (Hy : 0 < y) by (simpl in Hb; rewrite Zlt_Qlt; exact Hb).
    subst x. rewrite div_int by lia. eexists. split; [reflexivity|].
    rewrite Z.div_0_l by lia. reflexivity.
  - rewrite div_float by exact Hb0. eexists. split; [reflexivity|].
    simpl in *. rewrite Ha. field. exact Hb0.
  - unfold div. destruct (Qeq_bool (to_Q (PInt y)) 0) eqn:E;
      [apply Qeq_bool_iff in E; contradiction|].
    eexists. split; [reflexivity|]. simpl in *. rewrite Ha. field. exact Hb0.
  - rewrite div_float by exact Hb0. eexists. split; [reflexivity|].
    simpl in *. rewrite Ha. field. exact Hb0.
Qed.

(** A call of [__getDecimalRange__] whose ratio is within [0, 1] changes
    nothing. *)
Lemma getDecimalRange_inside (val : num) (isAmpl : bool) (s : CustomVisualizer) (r : num) :
  div (sub val (fst (range_of isAmpl s))) (snd (range_of isAmpl s)) = Ok r ->
  (0 <= to_Q r <= 1)%Q ->
  getDecimalRange val isAmpl s = (Ok r, s).
Proof.
  intros Hd [H0 H1]. rewrite (getDecimalRange_run _ _ _ _ Hd).
  assert (G : gtb r 1 = false) by (apply Qltb_false; exact H1).
  assert (L : ltb r 0 = false) by (apply Qltb_false; exact H0).
  rewrite G, L. reflexivity.
Qed.

(** Once a value has been through [__getDecimalRange__], the range holds it:
    a second call with the same value on the same channel returns a ratio
    within [0, 1] and leaves the state as it is. *)
Theorem getDecimalRange_second_call_settles
  (val : num) (isAmpl : bool) (self : CustomVisualizer) :
  pos_widths self ->
  exists r2,
    getDecimalRange val isAmpl (snd (getDecimalRange val isAmpl self))
      = (Ok r2, snd (getDecimalRange val isAmpl self)) /\
    (0 <= to_Q r2 <= 1)%Q.
Proof.
  intros [Ha Hf].
  assert (Hw : pos_width isAmpl self) by (destruct isAmpl; assumption).
  unfold pos_width in Hw.
  destruct (div_ok (sub val (fst (range_of isAmpl self))) (snd (range_of isAmpl self)))
    as [r Hr].
  { intro E. rewrite E in Hw. exact (Qlt_irrefl _ Hw). }
  rewrite (getDecimalRange_run _ _ _ _ Hr). simpl snd.
  destruct (gtb r 1) eqn:G; [|destruct (ltb r 0) eqn:L].
  - apply Qltb_true in G. change (to_Q (PInt 1)) with 1%Q in G.
    pose proof (div_gt_one_pos _ _ _ Hw Hr G) as Hpos.
    destruct (div_same _ Hpos) as [r2 [E2 Q2]].
    exists r2. split; [|rewrite Q2; split; discriminate].
    apply getDecimalRange_inside.
    + rewrite range_of_set_range. exact E2.
    + rewrite Q2. split; discriminate.
  - destruct (div_of_zero (sub val val) (snd (range_of isAmpl self))) as [r2 [E2 Q2]].
    + rewrite to_Q_sub. ring.
    + exact Hw.
    + exists r2. split; [|rewrite Q2; split; discriminate].
      apply getDecimalRange_inside.
      * rewrite range_of_set_range. exact E2.
      * rewrite Q2. split; discriminate.
  - apply Qltb_false in G. apply Qltb_false in L.
    change (to_Q (PInt 1)) with 1%Q in G. change (to_Q (PInt 0)) with 0%Q in L.
    exists r. split; [|split; assumption].
    apply getDecimalRange_inside; [exact Hr|split; assumption].
Qed.

(** A spike of 20000 on the amplitude channel of a new visualizer. *)
Lemma getDecimalRange_second_call_witness :
  exists r2,
    getDecimalRange (PInt 20000) true
      (snd (getDecimalRange (PInt 20000) true (CustomVisualizer_init 1)))
      = (Ok r2, snd (getDecimalRange (PInt 20000) true (CustomVisualizer_init 1))) /\
    (0 <= to_Q r2 <= 1)%Q.
Proof.
  apply (getDecimalRange_second_call_settles (PInt 20000) true (CustomVisualizer_init 1)).
  split; reflexivity.
Defined.

Lemma decay_n_ranges (n : nat) (s : CustomVisualizer) (isAmpl : bool) :
  fst (range_of isAmpl (decay_n n s)) = fst (range_of isAmpl s) /\
  (to_Q (snd (range_of isAmpl (decay_n n s)))
   == to_Q (snd (range_of isAmpl s)) * (999 # 1000) ^ Z.of_nat n)%Q.
Proof.
  induction n as [|n [IH1 IH2]].
  - split; [reflexivity|]. simpl. ring.
  - assert (Ep : ((999 # 1000) ^ Z.of_nat (S n) == (999 # 1000) ^ Z.of_nat n * (999 # 1000))%Q).
    { rewrite Nat2Z.inj_succ. unfold Z.succ. rewrite Qpower_plus by discriminate.
      reflexivity. }
    rewrite Ep. destruct isAmpl; simpl decay_n; simpl range_of in *.
    + split; [exact IH1|]. simpl snd. rewrite to_Q_mul, IH2. simpl to_Q. ring.
    + split; [exact IH1|]. simpl snd. rewrite to_Q_mul, IH2. simpl to_Q. ring.
Qed.

(** [n] decay steps multiply each width by [0.999 ^ n] and leave the lower
    bounds alone; a positive width gets strictly smaller at each step and
    stays positive. *)
Theorem decay_n_shrinks_widths (n : nat) (self : CustomVisualizer) (isAmpl : bool) :
  pos_widths self ->
  fst (range_of isAmpl (decay_n n self)) = fst (range_of isAmpl self) /\
  (to_Q (snd (range_of isAmpl (decay_n n self)))
   == to_Q (snd (range_of isAmpl self)) * (999 # 1000) ^ Z.of_nat n)%Q /\
  (0 < to_Q (snd (range_of isAmpl (decay_n (S n) self))))%Q /\
  (to_Q (snd (range_of isAmpl (decay_n (S n) self)))
   < to_Q (snd (range_of isAmpl (decay_n n self))))%Q.
Proof.
  intros Hp.
  destruct (decay_n_ranges n self isAmpl) as [E1 E2].
  split; [exact E1|]. split; [exact E2|].
  assert (Hn : pos_widths (decay_n n self)).
  { clear E1 E2. induction n as [|n IH]; [exact Hp|]. simpl. apply updateMaximums_pos, IH. }
  assert (Hw : (0 < to_Q (snd (range_of isAmpl (decay_n n self))))%Q)
    by (destruct Hn; destruct isAmpl; assumption).
  assert (Es : (to_Q (snd (range_of isAmpl (decay_n (S n) self)))
                == to_Q (snd (range_of isAmpl (decay_n n self))) * (999 # 1000))%Q).
  { destruct isAmpl; simpl; rewrite to_Q_mul; reflexivity. }
  rewrite Es. split; lra.
Qed.

(** Ten frames on a new visualizer. *)
Lemma decay_n_shrinks_widths_witness :
  (to_Q (snd (ampl_range (decay_n 11 (CustomVisualizer_init 1))))
   < to_Q (snd (ampl_range (decay_n 10 (CustomVisualizer_init 1)))))%Q.
Proof.
  apply (decay_n_shrinks_widths 10 (CustomVisualizer_init 1) true).
  split; reflexivity.
Defined.

(** ** What a frame changes, and what it leaves alone *)

Lemma getDecimalRange_config (val : num) (isAmpl : bool) (s : CustomVisualizer) :
  config (snd (getDecimalRange val isAmpl s)) = config s /\
  rollingAmpl (snd (getDecimalRange val isAmpl s)) = rollingAmpl s /\
  rollingFreq (snd (getDecimalRange val isAmpl s)) = rollingFreq s.
Proof.
  unfold getDecimalRange, bind, get, lift, modify, ret.
  destruct isAmpl; simpl.
  - destruct (div (sub val (fst (ampl_range s))) (snd (ampl_range s))) as [r|e]; simpl;
      [|repeat split].
    destruct (gtb r 1); [repeat split|]. destruct (ltb r 0); repeat split.
  - destruct (div (sub val (fst (freq_range s))) (snd (freq_range s))) as [r|e]; simpl;
      [|repeat split].
    destruct (gtb r 1); [repeat split|]. destruct (ltb r 0); repeat split.
Qed.

(** [generate] keeps whatever [__getDecimalRange__], [__updateMaximums__]
    and [__updateRolling__] keep. *)
Lemma generate_stable_from (I : CustomVisualizer -> Prop)
      (rfft_abs : list Z -> list Q) (str_float : Q -> string) (data : list Z) :
  (forall val isAmpl, stable I (getDecimalRange val isAmpl)) ->
  stable I updateMaximums ->
  (forall a f, stable I (updateRolling a f)) ->
  stable I (generate rfft_abs str_float data).
Proof.
  intros Hg Hm Hr. unfold generate.
  assert (Hc : forall val, stable I (getColor val)).
  { intro val. unfold getColor. apply stable_bind; [apply Hg|]. intro a. apply stable_ret. }
  assert (Hp : forall val, stable I (getPoints val)).
  { intro val. unfold getPoints. apply stable_bind; [apply Hg|].
    intro a. apply stable_bind; [apply stable_get|]. intro s. apply stable_ret. }
  apply stable_bind; [apply stable_lift|]. intro fft.
  apply stable_bind; [apply stable_lift|]. intro max_freq.
  apply stable_bind; [apply stable_lift|]. intro max_amplitude.
  apply stable_bind; [apply Hr|]. intros _.
  apply stable_bind; [apply Hm|]. intros _.
  apply stable_bind; [apply stable_get|]. intro self.
  destruct (use_rolling self).
  - apply stable_bind; [apply Hc|]. intro b.
    apply stable_bind; [apply Hp|]. intro star.
    apply stable_bind; [apply stable_get|]. intro self'.
    apply stable_bind; [destruct (display_stats self'); auto with stable|].
    intro stats. apply stable_ret.
  - apply stable_bind; [apply Hc|]. intro b.
    apply stable_bind; [apply Hp|]. intro star.
    apply stable_bind; [apply stable_get|]. intro self'.
    apply stable_bind; [destruct (display_stats self'); auto with stable|].
    intro stats. apply stable_ret.
Qed.

Lemma generate_config
  (rfft_abs : list Z -> list Q) (str_float : Q -> string)
  (data : list Z) (self : CustomVisualizer) :
  config (snd (generate rfft_abs str_float data self)) = config self.
Proof.
  apply (generate_stable_from (fun s => config s = config self)).
  - intros val isAmpl s H. rewrite <- H. apply getDecimalRange_config.
  - intros s H. rewrite <- H. reflexivity.
  - intros a f s H. rewrite <- H. reflexivity.
  - reflexivity.
Qed.

(** Whether it returns or raises, [CustomVisualizer.generate] changes the
    two ranges and the two rolling estimates only: the learning rates, the
    toggles, the brush, the column count, the geometry of the star and the
    size of the widget are after the call what they were before; so a second
    frame is generated under the same configuration as the first. *)
Theorem generate_keeps_config
  (rfft_abs : list Z -> list Q) (str_float : Q -> string)
  (data data' : list Z) (self : CustomVisualizer) :
  config (snd (generate rfft_abs str_float data self)) = config self /\
  config (snd (generate rfft_abs str_float data'
                 (snd (generate rfft_abs str_float data self)))) = config self.
Proof.
  split; [apply generate_config|].
  rewrite generate_config. apply generate_config.
Qed.

(** ** The rolling estimates *)




(** ** The learning rate *)

Lemma hundredth_rate_bounds (r : num) :
  hundredth_rate r -> (0 < to_Q r)%Q /\ (to_Q r < 1)%Q.
Proof.
  intros [k [[H1 H99] E]].
  assert (A : (1 <= inject_Z k)%Q) by (change 1%Q with (inject_Z 1); rewrite <- Zle_Qle; exact H1).
  assert (B : (inject_Z k <= 99)%Q) by (change 99%Q with (inject_Z 99); rewrite <- Zle_Qle; exact H99).
  rewrite E. split.
  - apply Qlt_shift_div_l; [reflexivity|]. lra.
  - apply Qlt_shift_div_r; [reflexivity|]. lra.
Qed.

Lemma keyPressEvent_hundredth_rate (key : Z) :
  stable (fun s => hundredth_rate (amplLearningRate s)) (keyPressEvent key).
Proof.
  unfold keyPressEvent. apply stable_get_bind. intros s0 H0.
  destruct (key =? Key_S); [apply stable_modify; intros s H; exact H|].
  destruct (key =? Key_R); [apply stable_modify; intros s H; exact H|].
  destruct (key =? Key_Equal).
  { destruct (ltb (amplLearningRate s0) (PFloat (99 # 100))) eqn:G; [|apply stable_ret].
    intros s _. simpl. apply Qltb_true in G. simpl in G.
    destruct H0 as [k [[H1 H99] E]].
    assert (Hk : k < 99).
    { rewrite E in G.
      assert (inject_Z k < 99)%Q.
      { apply Qnot_le_lt. intro C.
        assert (99 # 100 <= inject_Z k / 100)%Q by (apply Qle_shift_div_l; [reflexivity|lra]).
        lra. }
      change 99%Q with (inject_Z 99) in H. rewrite <- Zlt_Qlt in H. exact H. }
    exists (k + 1). split; [lia|].
    rewrite to_Q_add, E, inject_Z_plus. simpl to_Q. unfold Qdiv.
    change (inject_Z 1) with 1%Q. field. }
  destruct (key =? Key_Minus).
  { destruct (gtb (amplLearningRate s0) (PFloat (1 # 100))) eqn:G; [|apply stable_ret].
    intros s _. simpl. apply Qltb_true in G. simpl in G.
    destruct H0 as [k [[H1 H99] E]].
    assert (Hk : 1 < k).
    { rewrite E in G.
      assert (1 < inject_Z k)%Q.
      { apply Qnot_le_lt. intro C.
        assert (inject_Z k / 100 <= 1 # 100)%Q by (apply Qle_shift_div_r; [reflexivity|lra]).
        lra. }
      change 1%Q with (inject_Z 1) in H. rewrite <- Zlt_Qlt in H. exact H. }
    exists (k - 1). split; [lia|].
    rewrite to_Q_sub, E. unfold Z.sub. rewrite inject_Z_plus, inject_Z_opp.
    simpl to_Q. unfold Qdiv. change (inject_Z 1) with 1%Q. field. }
  destruct (key =? Key_Escape); [intros s H; exact H|].
  destruct (lookup_key key color_bindings); [apply stable_modify; intros s H; exact H|].
  destruct (Key_0 =? key); [apply stable_modify; intros s H; exact H|].
  destruct ((Key_1 <=? key) && (key <=? Key_9));
    [apply stable_modify; intros s H; exact H|apply stable_ret].
Qed.

Lemma config_amplLearningRate (s s' : CustomVisualizer) :
  config s' = config s -> amplLearningRate s' = amplLearningRate s.
Proof. unfold config. intro H. inversion H. reflexivity. Qed.

Lemma reachable_hundredth_rate (s : CustomVisualizer) :
  reachable s -> hundredth_rate (amplLearningRate s).
Proof.
  induction 1 as [cols|key s _ IH|rfft_abs str_float data s _ IH|w h s _ IH].
  - exists 90. split; [lia|reflexivity].
  - apply (keyPressEvent_hundredth_rate key s IH).
  - rewrite (config_amplLearningRate _ _ (generate_config rfft_abs str_float data s)).
    exact IH.
  - exact IH.
Qed.

(** In every reachable state of the radial-star visualizer both learning
    rates are a whole number of hundredths and lie strictly between 0 and 1:
    the guards of the [=] and [-] keys stop the steps of 0.01 at 0.99 and at
    0.01. *)
Theorem learning_rates_stay_in_unit_interval (s : CustomVisualizer) :
  reachable s ->
  hundredth_rate (amplLearningRate s) /\
  (0 < to_Q (amplLearningRate s))%Q /\ (to_Q (amplLearningRate s) < 1)%Q /\
  (0 < to_Q (freqLearningRate s))%Q /\ (to_Q (freqLearningRate s) < 1)%Q.
Proof.
  intro H.
  pose proof (reachable_hundredth_rate s H) as Hh.
  destruct (hundredth_rate_bounds _ Hh) as [H0 H1].
  destruct (reachable_inv s H) as [Hr _]. unfold rates_equal in Hr.
  rewrite <- Hr. repeat split; assumption.
Qed.

(** Two presses of [=] and a frame, from the initial rate 0.90. *)
Lemma learning_rates_witness :
  let s := snd (generate silent_spectrum (fun _ => "0.0"%string) [0]
                  (snd (keyPressEvent Key_Equal
                          (snd (keyPressEvent Key_Equal (CustomVisualizer_init 1)))))) in
  (0 < to_Q (amplLearningRate s))%Q /\ (to_Q (amplLearningRate s) < 1)%Q.
Proof.
  cbv zeta.
  destruct (learning_rates_stay_in_unit_interval
              (snd (generate silent_spectrum (fun _ => "0.0"%string) [0]
                      (snd (keyPressEvent Key_Equal
                              (snd (keyPressEvent Key_Equal (CustomVisualizer_init 1)))))))
              (reach_generate _ _ _ _
                 (reach_key _ _ (reach_key _ _ (reach_init 1)))))
    as [_ [H0 [H1 _]]].
  split; assumption.
Defined.

(** ** The colour at the ends of the scale *)

Lemma clamp_byte_low (x : num) : (to_Q x <= 0)%Q -> (to_Q (clamp_byte x) == 0)%Q.
Proof.
  intro H. unfold clamp_byte.
  destruct (ltb x 0) eqn:L.
  - reflexivity.
  - apply Qltb_false in L. change (to_Q (PInt 0)) with 0%Q in L.
    assert (E : (to_Q x == 0)%Q) by lra.
    assert (G : gtb x 255 = false).
    { apply Qltb_false. change (to_Q (PInt 255)) with 255%Q. lra. }
    rewrite G. exact E.
Qed.

Lemma clamp_byte_high (x : num) : (255 <= to_Q x)%Q -> (to_Q (clamp_byte x) == 255)%Q.
Proof.
  intro H. unfold clamp_byte.
  assert (L : ltb x 0 = false).
  { apply Qltb_false. change (to_Q (PInt 0)) with 0%Q. lra. }
  rewrite L. destruct (gtb x 255) eqn:G.
  - reflexivity.
  - apply Qltb_false in G. change (to_Q (PInt 255)) with 255%Q in G. lra.
Qed.

(** A frequency ratio of zero or less (a value at or below the lower bound
    of the range) gives pure blue [(0, 0, 255)], and a ratio of one or more (a
    value at or above the upper bound) gives pure red [(255, 0, 0)]. *)
Theorem color_of_ratio_saturates (colVal : num) :
  ((to_Q colVal <= 0)%Q ->
     (to_Q (red (color_of_ratio colVal)) == 0)%Q /\
     (to_Q (green (color_of_ratio colVal)) == 0)%Q /\
     (to_Q (blue (color_of_ratio colVal)) == 255)%Q) /\
  ((1 <= to_Q colVal)%Q ->
     (to_Q (red (color_of_ratio colVal)) == 255)%Q /\
     (to_Q (green (color_of_ratio colVal)) == 0)%Q /\
     (to_Q (blue (color_of_ratio colVal)) == 0)%Q).
Proof.
  rewrite color_of_ratio_unfold. split; intro H.
  - assert (P : gtb colVal (PFloat (1 # 2)) = false).
    { apply Qltb_false. simpl. lra. }
    rewrite P. cbv zeta. cbn [red green blue].
    assert (E : (to_Q (clamp_byte (mul (mul colVal (PInt 2)) (PInt 255))) == 0)%Q).
    { apply clamp_byte_low. rewrite !to_Q_mul. simpl to_Q.
      change (inject_Z 2) with 2%Q. change (inject_Z 255) with 255%Q. lra. }
    split; [reflexivity|]. split; [exact E|].
    rewrite to_Q_sub, E. reflexivity.
  - assert (P : gtb colVal (PFloat (1 # 2)) = true).
    { apply Qltb_true. simpl. lra. }
    rewrite P. cbv zeta. cbn [red green blue].
    assert (E : (to_Q (clamp_byte (mul (mul (sub colVal (PFloat (1 # 2))) (PInt 2)) (PInt 255))) == 255)%Q).
    { apply clamp_byte_high. rewrite !to_Q_mul, to_Q_sub. simpl to_Q.
      change (inject_Z 2) with 2%Q. change (inject_Z 255) with 255%Q. lra. }
    split; [exact E|]. split; [|reflexivity].
    rewrite to_Q_sub, E. reflexivity.
Qed.

(** ** The star polygon *)

Lemma point_count_128_bounds (ratio : num) : 2 <= point_count 128 ratio <= 128.
Proof.
  pose proof (point_count_cases 128 ratio) as H. cbv zeta in H.
  change (inject_Z 128) with 128%Q in H.
  destruct H as [[_ Hc]|[[_ [_ Hc]]|[Hlo [Hhi Hc]]]]; rewrite Hc.
  - change (if 2 <? 128 then 2 else Z.min 2 128) with 2. lia.
  - lia.
  - assert (Hm : (to_Q (mul ratio (PInt 128)) == to_Q ratio * 128)%Q)
      by (rewrite to_Q_mul; reflexivity).
    apply int_between; [lia| |]; rewrite Hm; assumption.
Qed.

Lemma flat_map_pairs_nth {A B : Type} (g h : A -> B) (l : list A) (k : nat) (x : A) :
  nth_error l k = Some x ->
  nth_error (flat_map (fun p => [g p; h p]) l) (2 * k) = Some (g x) /\
  nth_error (flat_map (fun p => [g p; h p]) l) (S (2 * k)) = Some (h x).
Proof.
  revert k. induction l as [|a l IH]; intros k H.
  - destruct k; discriminate.
  - destruct k as [|k].
    + simpl in H. inversion H; subst a. split; reflexivity.
    + simpl in H. destruct (IH k H) as [H1 H2].
      replace (2 * S k)%nat with (S (S (2 * k))) by lia.
      split; [exact H1|exact H2].
Qed.

Lemma getStarPoints_nth (self : CustomVisualizer) (points : Z) (i : nat) :
  (i < Z.to_nat points)%nat ->
  nth_error (getStarPoints self points) (2 * i)
    = Some (InnerPoint points (Z.of_nat i) (inner_rad self) (center self)) /\
  nth_error (getStarPoints self points) (S (2 * i))
    = Some (OuterPoint points (Z.of_nat i) (outer_rad self) (center self)).
Proof.
  intro Hi. unfold getStarPoints.
  change (fun point : nat =>
            let '(point1, point2) := getStarPair self points (Z.of_nat point) in
            [point1; point2])
    with (fun point : nat =>
            [InnerPoint points (Z.of_nat point) (inner_rad self) (center self);
             OuterPoint points (Z.of_nat point) (outer_rad self) (center self)]).
  apply (flat_map_pairs_nth
           (fun point => InnerPoint points (Z.of_nat point) (inner_rad self) (center self))
           (fun point => OuterPoint points (Z.of_nat point) (outer_rad self) (center self))).
  rewrite (nth_error_nth' (seq 0 (Z.to_nat points)) 0%nat) by (rewrite length_seq; exact Hi).
  rewrite seq_nth by exact Hi. reflexivity.
Qed.

(** With positive widths and [max_points = 128], [__getPoints__] returns a
    polygon of [2 * k] vertices for some [k] between 2 and 128: vertex [2 i]
    is the inner point and vertex [2 i + 1] the outer point of index [i], on
    the radii and the centre of the visualizer. *)
Theorem getPoints_star_shape (val : num) (self : CustomVisualizer) :
  pos_widths self -> max_points self = 128 ->
  exists (k : Z) (star : list vertex) (self' : CustomVisualizer),
    getPoints val self = (Ok star, self') /\
    2 <= k <= 128 /\
    length star = (2 * Z.to_nat k)%nat /\
    forall i, (i < Z.to_nat k)%nat ->
      nth_error star (2 * i)
        = Some (InnerPoint k (Z.of_nat i) (inner_rad self) (center self)) /\
      nth_error star (S (2 * i))
        = Some (OuterPoint k (Z.of_nat i) (outer_rad self) (center self)).
Proof.
  intros Hp Hm.
  destruct (getDecimalRange_pos val true self Hp) as [r [Hr _]].
  destruct (getDecimalRange_config val true self) as [Hc _].
  set (s1 := snd (getDecimalRange val true self)) in *.
  assert (E : getDecimalRange val true self = (Ok r, s1)).
  { unfold s1. destruct (getDecimalRange val true self) as [o s']. simpl in Hr.
    subst o. reflexivity. }
  unfold config in Hc.
  assert (Emax : max_points s1 = max_points self) by congruence.
  assert (Einner : inner_rad s1 = inner_rad self) by congruence.
  assert (Eouter : outer_rad s1 = outer_rad self) by congruence.
  assert (Ecenter : center s1 = center self) by congruence.
  clear Hc.
  exists (point_count 128 r), (getStarPoints s1 (point_count 128 r)), s1.
  split.
  - unfold getPoints. rewrite (bind_run _ _ self s1 r E).
    unfold bind, get, ret. rewrite Emax, Hm. reflexivity.
  - split; [apply point_count_128_bounds|].
    split; [apply getStarPoints_length|].
    intros i Hi. rewrite <- Einner, <- Eouter, <- Ecenter.
    apply getStarPoints_nth, Hi.
Qed.

(** The first block of a new visualizer. *)
Lemma getPoints_star_shape_witness :
  exists (k : Z) (star : list vertex) (self' : CustomVisualizer),
    getPoints (PInt 20000) (CustomVisualizer_init 1) = (Ok star, self') /\
    2 <= k <= 128 /\
    length star = (2 * Z.to_nat k)%nat.
Proof.
  destruct (getPoints_star_shape (PInt 20000) (CustomVisualizer_init 1))
    as [k [star [self' [E [Hk [Hl _]]]]]].
  - split; reflexivity.
  - reflexivity.
  - exists k, star, self'. repeat split; try assumption; apply Hk.
Defined.

(** ** More on the spectrogram *)

Lemma mean_over_zero_step (fft : list Q) (i : nat) : mean_over fft i 0 = None.
Proof. reflexivity. Qed.

(** A spectrum of fewer than 200 bins (a block of fewer than 398 samples)
    makes the step 0: every slice is empty, all 200 bins are NaN and every bar
    is drawn without a height. *)
Theorem spectrogram_short_spectrum_is_nan (fft : list Q) (w h : Z) (i : nat) :
  (length fft < 200)%nat -> (i < 200)%nat ->
  nth_error (spectrogram_bins fft) i = Some None /\
  exists x wd, spectrogram_bar w h 200 i None = drawRectF (Some x) None (Some wd) None white.
Proof.
  intros Hl Hi. split.
  - rewrite (spectrogram_bins_nth fft i Hi).
    rewrite Z.div_small by lia. reflexivity.
  - unfold spectrogram_bar. simpl option_map. eexists. eexists. reflexivity.
Qed.

(** A spectrum of three bins. *)
Lemma spectrogram_short_spectrum_witness :
  nth_error (spectrogram_bins [1%Q; 5%Q; 2%Q]) 0 = Some None.
Proof.
  apply (spectrogram_short_spectrum_is_nan [1%Q; 5%Q; 2%Q] 800 800 0); simpl; lia.
Defined.

Lemma slice_of_prefix (fft : list Q) (i step n : nat) :
  (i + step <= n)%nat ->
  slice (firstn n fft) i (i + step) = slice fft i (i + step).
Proof.
  intro H. unfold slice. replace (i + step - i)%nat with step by lia.
  rewrite !firstn_skipn_comm, firstn_firstn.
  replace (Nat.min (i + step) n) with (i + step)%nat by lia. reflexivity.
Qed.

(** Bin [i] starts at index [i], not at [i * step]: the 200 bins only read
    the first [199 + step] magnitudes.  Two spectra of the same length that
    agree there have the same bins, whatever the rest holds. *)
Theorem spectrogram_reads_a_prefix (fft1 fft2 : list Q) :
  length fft1 = length fft2 ->
  firstn (199 + Z.to_nat (Z.of_nat (length fft1) / 200)) fft1
    = firstn (199 + Z.to_nat (Z.of_nat (length fft1) / 200)) fft2 ->
  spectrogram_bins fft1 = spectrogram_bins fft2.
Proof.
  intros Hl Hp. unfold spectrogram_bins. rewrite <- Hl.
  set (step := Z.to_nat (Z.of_nat (length fft1) / Z.of_nat 200)) in *.
  change (Z.of_nat 200) with 200 in *.
  apply map_ext_in. intros i Hi. apply in_seq in Hi.
  rewrite <- (slice_of_prefix fft1 i step (199 + step)) by lia.
  rewrite <- (slice_of_prefix fft2 i step (199 + step)) by lia.
  unfold step. rewrite Hp. reflexivity.
Qed.

(** Two spectra of 2501 bins that differ from bin 300 on: with a step of 12
    only the first 211 bins are read. *)
Lemma spectrogram_reads_a_prefix_witness :
  spectrogram_bins (repeat 1%Q 300 ++ repeat 0%Q 2201)
  = spectrogram_bins (repeat 1%Q 300 ++ repeat 7%Q 2201).
Proof.
  apply (spectrogram_reads_a_prefix (repeat 1%Q 300 ++ repeat 0%Q 2201)
                                    (repeat 1%Q 300 ++ repeat 7%Q 2201)).
  - rewrite !length_app, !repeat_length. reflexivity.
  - vm_compute. reflexivity.
Defined.

(** ** The bar grid *)

Lemma lookup_key_In (k : Z) (d : list (Z * QBrush)) (b : QBrush) :
  lookup_key k d = Some b -> In b (map snd d).
Proof.
  induction d as [|[k' b'] d IH]; simpl; intro H; [discriminate|].
  destruct (k =? k').
  - inversion H. left. reflexivity.
  - right. apply IH, H.
Qed.

Lemma line_keyPressEvent_inv (key : Z) : stable line_inv (line_keyPressEvent key).
Proof.
  unfold line_keyPressEvent. apply stable_get_bind. intros s0 _.
  destruct (key =? Key_I); [intros s [_ H]; split; [reflexivity|exact H]|].
  destruct (key =? Key_O); [intros s [_ H]; split; [reflexivity|exact H]|].
  destruct (key =? Key_P); [intros s [_ H]; split; [reflexivity|exact H]|].
  destruct (key =? Key_Escape); [intros s H; exact H|].
  destruct (lookup_key key color_bindings) as [b|] eqn:E.
  { intros s [H1 [_ H3]]. split; [exact H1|]. split; [|exact H3].
    apply lookup_key_In in E. exact E. }
  destruct (Key_0 =? key).
  { intros s [H1 [H2 _]]. split; [exact H1|]. split; [exact H2|]. simpl. lia. }
  destruct ((Key_1 <=? key) && (key <=? Key_9)) eqn:D; [|apply stable_ret].
  intros s [H1 [H2 _]]. split; [exact H1|]. split; [exact H2|].
  apply andb_true_iff in D. destruct D as [D1 D2].
  apply Z.leb_le in D1. apply Z.leb_le in D2. unfold Key_1, Key_9 in *. simpl. lia.
Qed.

(** In every state of a [LineVisualizer] created with 1 to 10 columns, at
    least one of the two halves of the grid is displayed (the keys I, O and P
    never switch both off), the brush is one of the six of the palette, and
    the column count is between 1 and 10. *)
Theorem line_keys_keep_grid_visible (cols : Z) (s : LineVisualizer) :
  1 <= cols <= 10 ->
  line_reachable cols s ->
  (display_evens s || display_odds s = true) /\
  In (l_brush s) brushes /\
  1 <= l_columns s <= 10.
Proof.
  intros Hc H. induction H as [|key s _ IH|w h s _ IH].
  - split; [reflexivity|]. split; [left; reflexivity|exact Hc].
  - apply (line_keyPressEvent_inv key s IH).
  - exact IH.
Qed.

(** The keys P, R, 0 and 4 on a visualizer of one column. *)
Lemma line_keys_witness :
  let s := snd (line_keyPressEvent 52
             (snd (line_keyPressEvent Key_0
                (snd (line_keyPressEvent Key_R
                   (snd (line_keyPressEvent Key_P (LineVisualizer_init 1)))))))) in
  (display_evens s || display_odds s = true) /\
  In (l_brush s) brushes /\
  1 <= l_columns s <= 10.
Proof.
  cbv zeta. apply (line_keys_keep_grid_visible 1); [lia|].
  repeat apply line_reach_key. apply line_reach_init.
Defined.

Lemma randint_nonneg (bound u : Z) :
  0 <= bound -> randint 0 bound u = Ok (u mod (bound + 1)).
Proof.
  intro H. unfold randint. destruct (bound <? 0) eqn:E.
  - apply Z.ltb_lt in E. lia.
  - rewrite Z.sub_0_r. reflexivity.
Qed.

Section Line_loops.

Variable draws : nat -> Z.
Variable self : LineVisualizer.
Variables rect_width rect_height bound : Z.
Hypothesis bound_nonneg : 0 <= bound.

Lemma line_cells_ok (x : Z) (ys : list Z) (n : nat) :
  exists ps,
    line_cells draws self rect_width rect_height bound x ys n
      = Ok (ps, (n + length ys)%nat) /\
    Forall (line_rect rect_width rect_height (l_brush self)) ps /\
    (bound = 0 -> ps = []).
Proof.
  revert n. induction ys as [|y ys IH]; intro n.
  - exists []. simpl. rewrite Nat.add_0_r. repeat split. constructor.
  - destruct (IH (S n)) as [ps [E [F Z0]]].
    cbn [line_cells]. rewrite (randint_nonneg bound (draws n) bound_nonneg), obind_Ok.
    rewrite E, obind_Ok.
    eexists. split; [|split].
    + f_equal. f_equal. simpl. lia.
    + apply Forall_app. split; [|exact F].
      destruct (draws n mod (bound + 1) =? 0); [constructor|].
      apply Forall_app. split.
      * destruct (display_evens self); constructor; [|constructor].
        exists x, y. reflexivity.
      * destruct (display_odds self); constructor; [|constructor].
        exists (x + rect_width), (l_height self - y - rect_height). reflexivity.
    + intro B. rewrite (Z0 B). subst bound.
      rewrite Z.mod_1_r. reflexivity.
Qed.

Hypothesis rect_height_pos : 1 <= rect_height.

Lemma line_columns_ok (xs : list Z) (n : nat) :
  exists ps n',
    line_columns draws self rect_width rect_height bound xs n = Ok (ps, n') /\
    Forall (line_rect rect_width rect_height (l_brush self)) ps /\
    (bound = 0 -> ps = []).
Proof.
  revert n. induction xs as [|x xs IH]; intro n.
  - exists [], n. repeat split. constructor.
  - cbn [line_columns].
    destruct (xrange (l_height self) (2 * rect_height)) as [ys|e] eqn:X.
    2:{ unfold xrange in X.
        destruct (2 * rect_height =? 0) eqn:E; [apply Z.eqb_eq in E; lia|discriminate]. }
    rewrite obind_Ok.
    destruct (line_cells_ok x ys n) as [cells [Ec [Fc Zc]]].
    rewrite Ec, obind_Ok.
    destruct (IH (n + length ys)%nat) as [rest [n2 [Er [Fr Zr]]]].
    rewrite Er, obind_Ok.
    exists (cells ++ rest), n2. split; [reflexivity|]. split.
    + apply Forall_app. split; assumption.
    + intro B. rewrite (Zc B), (Zr B). reflexivity.
Qed.

End Line_loops.


Lemma int_nonneg (a : num) : (0 <= to_Q a)%Q -> 0 <= int a.
Proof.
  intro H. rewrite (int_nonneg_floor a H).
  rewrite <- (Qfloor_Z 0). apply Qfloor_resp_le. exact H.
Qed.

Lemma line_generate_ok
      (rfft_abs : list Z -> list Q) (draws : nat -> Z)
      (self : LineVisualizer) (data : list Z) (m : Z) :
  data <> [] -> rfft_abs data <> [] ->
  1 <= l_columns self -> 2 * l_columns self <= l_width self ->
  amax_Z data = Ok m ->
  0 <= int (PFloat (inject_Z m / inject_Z SAMPLE_MAX * inject_Z 10)) ->
  exists img n rect_height,
    line_generate rfft_abs draws self data = Ok (img, n) /\
    img_width img = l_width self /\ img_height img = l_height self /\
    Forall (line_rect (l_width self / (l_columns self * 2)) rect_height (l_brush self))
           (painted img) /\
    (int (PFloat (inject_Z m / inject_Z SAMPLE_MAX * inject_Z 10)) = 0 ->
     painted img = []).
Proof.
  intros Hd Hf Hc Hw Em Hb.
  destruct (dominant_frequency_ok (rfft_abs data) Hf) as [f [Ef _]].
  unfold line_generate.
  rewrite (rfft_absolute_ok rfft_abs data Hd), obind_Ok, Ef, obind_Ok, Em, obind_Ok.
  rewrite div_int by lia. rewrite obind_Ok. cbv zeta.
  change (int (PInt (l_width self / (l_columns self * 2))))
    with (l_width self / (l_columns self * 2)).
  set (rw := l_width self / (l_columns self * 2)).
  set (rh := rect_height_of (l_height self) f).
  assert (Hrw : 1 <= rw) by (apply Z.div_le_lower_bound; lia).
  destruct (1 <=? rh) eqn:Eh.
  - apply Z.leb_le in Eh.
    destruct (xrange (l_width self - rw) (rw * 2)) as [xs|e] eqn:X.
    2:{ unfold xrange in X.
        destruct (rw * 2 =? 0) eqn:E; [apply Z.eqb_eq in E; lia|discriminate]. }
    rewrite obind_Ok.
    unfold float. simpl to_Q. rewrite div_float by discriminate. rewrite obind_Ok.
    cbv zeta.
    change (int (mul (PFloat (to_Q m / inject_Z SAMPLE_MAX)) 10))
      with (int (PFloat (inject_Z m / inject_Z SAMPLE_MAX * inject_Z 10))).
    destruct (line_columns_ok draws self rw rh _ Hb Eh xs 0) as [ps [n [E [F Z0]]]].
    rewrite E, obind_Ok.
    exists (mkQImage (l_width self) (l_height self) ps), n, rh.
    repeat split; try assumption.
  - exists (mkQImage (l_width self) (l_height self) []), O, rh.
    repeat split. constructor.
Qed.

(** On a widget at least two pixels wide per column, [LineVisualizer.generate]
    returns an image of the size of the widget for every non-empty block
    whose largest sample is not negative, whatever the random draws; every
    rectangle it paints has the width [width / (2 * columns)], one common
    height, and the brush of the visualizer. *)
Theorem line_generate_returns_on_nonnegative_peak
  (rfft_abs : list Z -> list Q) (draws : nat -> Z)
  (self : LineVisualizer) (data : list Z) (m : Z) :
  data <> [] -> rfft_abs data <> [] ->
  1 <= l_columns self -> 2 * l_columns self <= l_width self ->
  amax_Z data = Ok m -> 0 <= m ->
  exists img n rect_height,
    line_generate rfft_abs draws self data = Ok (img, n) /\
    img_width img = l_width self /\ img_height img = l_height self /\
    Forall (line_rect (l_width self / (l_columns self * 2)) rect_height (l_brush self))
           (painted img).
Proof.
  intros Hd Hf Hc Hw Em Hm.
  destruct (line_generate_ok rfft_abs draws self data m Hd Hf Hc Hw Em)
    as [img [n [rh [E [W [H [F _]]]]]]].
  - apply int_nonneg. simpl to_Q. unfold Qdiv.
    apply Qmult_le_0_compat; [|discriminate].
    apply Qmult_le_0_compat; [|discriminate].
    change 0%Q with (inject_Z 0). rewrite <- Zle_Qle. exact Hm.
  - exists img, n, rh. repeat split; assumption.
Qed.

(** A block of two samples with its peak of 20000 in the alternating bin, on
    the default widget. *)
Lemma line_generate_returns_witness :
  exists img n rect_height,
    line_generate (fun _ => [0%Q; 40000%Q]) (fun k => Z.of_nat k)
                  (LineVisualizer_init 1) [20000; -20000] = Ok (img, n) /\
    img_width img = 800 /\ img_height img = 800 /\
    Forall (line_rect 400 rect_height (l_brush (LineVisualizer_init 1))) (painted img).
Proof.
  apply (line_generate_returns_on_nonnegative_peak
           (fun _ => [0%Q; 40000%Q]) (fun k => Z.of_nat k)
           (LineVisualizer_init 1) [20000; -20000] 20000);
    try discriminate; reflexivity.
Defined.



(** ** The keys of the radial star *)

(** The toggles undo themselves: two presses of S, or of R, give back the
    state, and two presses of Escape give back the full-screen flag. *)
Theorem keyPressEvent_toggles_twice (s : CustomVisualizer) :
  snd (keyPressEvent Key_S (snd (keyPressEvent Key_S s))) = s /\
  snd (keyPressEvent Key_R (snd (keyPressEvent Key_R s))) = s /\
  is_fullscreen (snd (keyPressEvent Key_Escape (snd (keyPressEvent Key_Escape s))))
    = is_fullscreen s.
Proof.
  destruct s as [c b ar fr mp ir orad ce ra rf al fl ur ds fs w h].
  unfold keyPressEvent, bind, get, modify, ret. simpl.
  rewrite !negb_involutive. repeat split.
Qed.

Lemma keyPressEvent_brush (key : Z) :
  stable (fun s => In (brush s) custom_brushes) (keyPressEvent key).
Proof.
  unfold keyPressEvent. apply stable_get_bind. intros s0 _.
  destruct (key =? Key_S); [apply stable_modify; intros s H; exact H|].
  destruct (key =? Key_R) eqn:ER; [apply stable_modify; intros s H; exact H|].
  destruct (key =? Key_Equal).
  { destruct (ltb (amplLearningRate s0) (PFloat (99 # 100)));
      [intros s H; exact H|apply stable_ret]. }
  destruct (key =? Key_Minus).
  { destruct (gtb (amplLearningRate s0) (PFloat (1 # 100)));
      [intros s H; exact H|apply stable_ret]. }
  destruct (key =? Key_Escape); [intros s H; exact H|].
  destruct (lookup_key key color_bindings) as [b|] eqn:E.
  { intros s _. simpl.
    unfold color_bindings, brushes in E. simpl in E. unfold Key_R in ER.
    destruct (key =? 81); [inversion E; simpl; auto|].
    destruct (key =? 87); [inversion E; simpl; auto|].
    destruct (key =? 69); [inversion E; simpl; auto|].
    rewrite ER in E.
    destruct (key =? 84); [inversion E; simpl; auto|].
    destruct (key =? 89); [inversion E; simpl; auto 6|].
    discriminate. }
  destruct (Key_0 =? key); [apply stable_modify; intros s H; exact H|].
  destruct ((Key_1 <=? key) && (key <=? Key_9));
    [apply stable_modify; intros s H; exact H|apply stable_ret].
Qed.

(** In the radial-star visualizer the key R toggles the rolling mode before
    the colour bindings are looked at, so the blue brush bound to R is never
    selected: in every reachable state the brush is white, red, green, yellow
    or teal. *)
Theorem custom_brush_is_never_blue (s : CustomVisualizer) :
  reachable s ->
  In (brush s) custom_brushes /\ brush s <> mkQColor 0 0 255.
Proof.
  intro H.
  assert (Hin : In (brush s) custom_brushes).
  { induction H as [cols|key s _ IH|rfft_abs str_float data s _ IH|w h s _ IH].
    - left. reflexivity.
    - apply (keyPressEvent_brush key s IH).
    - assert (E : brush (snd (generate rfft_abs str_float data s)) = brush s).
      { pose proof (generate_config rfft_abs str_float data s) as C.
        unfold config in C. congruence. }
      rewrite E. exact IH.
    - exact IH. }
  split; [exact Hin|].
  intro E. rewrite E in Hin. unfold custom_brushes in Hin. simpl in Hin.
  repeat (destruct Hin as [Hin|Hin]; [discriminate|]). exact Hin.
Qed.

(** The key R on a new visualizer: the rolling mode is on, the brush is still
    white. *)
Lemma custom_brush_witness :
  let s := snd (keyPressEvent Key_R (CustomVisualizer_init 1)) in
  In (brush s) custom_brushes /\ brush s <> mkQColor 0 0 255.
Proof.
  cbv zeta. apply custom_brush_is_never_blue. apply reach_key, reach_init.
Defined.

(** ** A tick of the driver loop on a failing frame *)

Lemma generate_overlay_raises
  (rfft_abs : list Z -> list Q) (str_float : Q -> string)
  (data : list Z) (self : CustomVisualizer) :
  data <> [] -> rfft_abs data <> [] ->
  pos_widths self ->
  display_stats self = true -> use_rolling self = false ->
  fst (generate rfft_abs str_float data self) = Raise (ValueError "substring not found").
Proof.
  intros Hd Hf Hp Hstats Hroll.
  destruct (dominant_frequency_ok (rfft_abs data) Hf) as [f [Ef _]].
  destruct (amax_Z_ok data Hd) as [m Em].
  unfold generate.
  rewrite (bind_run _ _ self self (rfft_abs data))
    by (unfold lift; rewrite (rfft_absolute_ok rfft_abs data Hd); reflexivity).
  rewrite (bind_run _ _ self self f) by (unfold lift; rewrite Ef; reflexivity).
  rewrite (bind_run _ _ self self m) by (unfold lift; rewrite Em; reflexivity).
  set (s1 := snd (updateRolling (PInt m) (PFloat f) self)).
  rewrite (bind_run _ _ self s1 tt) by reflexivity.
  set (s2 := snd (updateMaximums s1)).
  rewrite (bind_run _ _ s1 s2 tt) by reflexivity.
  assert (Hp2 : pos_widths s2) by (apply updateMaximums_pos; exact Hp).
  rewrite (bind_run _ _ s2 s2 s2) by reflexivity.
  change (use_rolling s2) with (use_rolling self). rewrite Hroll.
  destruct (getColor_run (PFloat f) s2 Hp2) as [b Eb].
  set (s3 := snd (getDecimalRange (PFloat f) false s2)) in *.
  rewrite (bind_run _ _ s2 s3 b Eb).
  assert (Hp3 : pos_widths s3).
  { destruct (getDecimalRange_pos (PFloat f) false s2 Hp2) as [r [_ H]]. exact H. }
  destruct (getPoints_run (PInt m) s3 Hp3) as [star Es].
  set (s4 := snd (getDecimalRange (PInt m) true s3)) in *.
  rewrite (bind_run _ _ s3 s4 star Es).
  rewrite (bind_run _ _ s4 s4 s4) by reflexivity.
  assert (Hs4 : display_stats s4 = true).
  { destruct (getDecimalRange_fields (PInt m) true s3) as [_ [_ [_ [_ [E4 _]]]]].
    destruct (getDecimalRange_fields (PFloat f) false s2) as [_ [_ [_ [_ [E3 _]]]]].
    fold s4 in E4. fold s3 in E3. rewrite E4, E3. exact Hstats. }
  rewrite Hs4.
  rewrite (bind_raise _ _ s4 s4 (ValueError "substring not found")); [reflexivity|].
  unfold lift, drawStats. rewrite getTrimString_int. reflexivity.
Qed.

(** In a reachable state with the stats overlay on and the rolling mode off,
    a tick of [refresh] that gets a block raises the [ValueError] of
    [generate]: no pixmap is set and [QTimer.singleShot] is not called, so no
    further tick follows, visible or not. *)
Theorem refresh_stops_when_overlay_fails
  (rfft_abs : list Z -> list Q) (str_float : Q -> string)
  (update_interval : Z) (data : list Z) (self : CustomVisualizer)
  (clock1 clock2 : Q) (isVisible : bool) :
  reachable self ->
  display_stats self = true -> use_rolling self = false ->
  data <> [] -> rfft_abs data <> [] ->
  refresh update_interval (fun block => fst (generate rfft_abs str_float block self))
          (Some data) clock1 clock2 isVisible
  = Raise (ValueError "substring not found").
Proof.
  intros Hr Hs Hroll Hd Hf.
  destruct (reachable_inv self Hr) as [_ [Hp _]].
  unfold refresh.
  rewrite (generate_overlay_raises rfft_abs str_float data self Hd Hf Hp Hs Hroll).
  reflexivity.
Qed.

(** The key S on a new visualizer, then a tick on a one-sample block. *)
Lemma refresh_stops_witness :
  refresh default_update_interval
          (fun block => fst (generate one_sample_spectrum (fun _ => "0.0"%string) block
                               (snd (keyPressEvent Key_S (CustomVisualizer_init 1)))))
          (Some [5]) 0 (1 # 100) true
  = Raise (ValueError "substring not found").
Proof.
  apply refresh_stops_when_overlay_fails.
  - apply reach_key, reach_init.
  - reflexivity.
  - reflexivity.
  - discriminate.
  - discriminate.
Defined.
